(** * Siemens RDF302 integration: the shared Modbus host

    A shallow embedding of [custom_components/siemens_rdf302/modbus_host.py]
    and of the host registry kept by [custom_components/siemens_rdf302/__init__.py].

    The pymodbus client, the asyncio lock, [asyncio.sleep] and the logger are
    external to the repository.  Every call into them is an _event_ of a small
    free monad [Prog]; what the outside world answers is given by an oracle
    that reads the history of the interaction so far.  The Python methods are
    transcribed statement by statement as [Prog] terms. *)

From Stdlib Require Import ZArith QArith_base Lia.
From stdpp Require Import base option list gmap strings pretty relations.

Open Scope Z_scope.

(** ** Python exceptions *)

Module Py.

(** The exception classes that matter to the [except] clauses of the source.
    [ModbusIOException] and [ConnectionException] derive from pymodbus's
    [ModbusException]; all of them but [CancelledError] derive from
    [Exception]. *)
Inductive exn : Set :=
| ModbusIOException
| ConnectionException
| ModbusException
| IndexError
| KeyError
| OtherException
| CancelledError.

Definition isinstance_ModbusIOException (e : exn) : bool :=
  match e with ModbusIOException => true | _ => false end.

Definition isinstance_ModbusException (e : exn) : bool :=
  match e with
  | ModbusIOException | ConnectionException | ModbusException => true
  | _ => false
  end.

Definition isinstance_Exception (e : exn) : bool :=
  match e with CancelledError => false | _ => true end.

(** [range(n)] *)
Definition range (n : Z) : list Z := map Z.of_nat (seq 0 (Z.to_nat n)).

(** [len(l)] *)
Definition len {A} (l : list A) : Z := Z.of_nat (length l).

End Py.

Import Py.

(** ** The interface of the pymodbus client *)

(** A response PDU as the source reads it: [isError()], [.registers], [.bits]. *)
Record Response : Set := mkResponse {
  isError : bool;
  registers : list Z;
  bits : list bool
}.

Inductive Level : Set := WARNING | ERROR.

(** Calls that leave the module.  The index is the type of the answer; a call
    that may raise answers in [exn + _]. *)
Inductive Event : Type -> Type :=
| LockAcquire : Event unit                       (* entering [async with self._lock] *)
| LockRelease : Event unit                       (* leaving it *)
| ClientConnected : Event bool                   (* [self._client.connected] *)
| ClientConnect : Event (exn + bool)             (* [await self._client.connect()] *)
| ClientClose : Event (exn + unit)               (* [await self._client.close()] *)
| ReadHoldingRegisters (address count unit_id : Z) : Event (exn + Response)
| ReadInputRegisters (address count unit_id : Z) : Event (exn + Response)
| ReadCoils (address count unit_id : Z) : Event (exn + Response)
| WriteRegister (address value unit_id : Z) : Event (exn + Response)
| WriteCoil (address : Z) (value : bool) (unit_id : Z) : Event (exn + Response)
| Sleep (delay : Q) : Event unit                 (* [await asyncio.sleep(delay)] *)
| Log (level : Level) (msg : string) (address : Z) : Event unit.

(** One observed call together with its answer. *)
Inductive Obs : Type :=
| Ob {X : Type} (ev : Event X) (x : X).

(** ** Programs *)

Inductive Prog (A : Type) : Type :=
| Ret (a : A)
| Raise (e : exn)
| Vis {X : Type} (ev : Event X) (k : X -> Prog A).

Arguments Ret {A} a.
Arguments Raise {A} e.
Arguments Vis {A X} ev k.

Fixpoint bind {A B} (p : Prog A) (f : A -> Prog B) : Prog B :=
  match p with
  | Ret a => f a
  | Raise e => Raise e
  | Vis ev k => Vis ev (fun x => bind (k x) f)
  end.

Declare Scope prog_scope.
Delimit Scope prog_scope with prog.
Bind Scope prog_scope with Prog.
Notation "x <- p ;; q" := (bind p (fun x => q))
  (at level 100, p at next level, right associativity) : prog_scope.
Notation "p ;; q" := (bind p (fun _ => q))
  (at level 100, right associativity) : prog_scope.
Open Scope prog_scope.

(** A call that cannot raise. *)
Definition trigger {X} (ev : Event X) : Prog X := Vis ev Ret.

(** A call that may raise: the exception is re-raised in the caller. *)
Definition call {X} (ev : Event (exn + X)) : Prog X :=
  Vis ev (fun r => match r with inl e => Raise e | inr x => Ret x end).

(** [try: p  except ...: h e]; the handler re-raises what no clause matches. *)
Fixpoint try_except {A} (p : Prog A) (h : exn -> Prog A) : Prog A :=
  match p with
  | Ret a => Ret a
  | Raise e => h e
  | Vis ev k => Vis ev (fun x => try_except (k x) h)
  end.

(** [try: p  finally: q] *)
Fixpoint finally {A} (p : Prog A) (q : Prog unit) : Prog A :=
  match p with
  | Ret a => q ;; Ret a
  | Raise e => q ;; Raise e
  | Vis ev k => Vis ev (fun x => finally (k x) q)
  end.

(** [async with self._lock: body] *)
Definition with_lock {A} (body : Prog A) : Prog A :=
  trigger LockAcquire ;; finally body (trigger LockRelease).

(** [for x in xs: body x] followed by [after]; the body answers [Some v] for
    [return v] and [None] to go on with the next element. *)
Fixpoint for_in {A R} (xs : list A) (body : A -> Prog (option R)) (after : Prog R)
  : Prog R :=
  match xs with
  | [] => after
  | x :: xs' =>
      r <- body x ;;
      match r with
      | Some v => Ret v
      | None => for_in xs' body after
      end
  end.

(** ** Running a program against the outside world *)

(** The outside world: what it answers to a call, given all that happened. *)
Definition Oracle : Type := list Obs -> forall X, Event X -> X.

(** [interp O p h] runs [p] after the history [h]; it gives the result
    (returned value or escaping exception) and the calls made by [p]. *)
Fixpoint interp {A} (O : Oracle) (p : Prog A) (h : list Obs)
  : (exn + A) * list Obs :=
  match p with
  | Ret a => (inr a, [])
  | Raise e => (inl e, [])
  | Vis ev k =>
      let x := O h _ ev in
      let '(r, tr) := interp O (k x) (h ++ [Ob ev x]) in
      (r, Ob ev x :: tr)
  end.

(** ** [class ModbusHost] *)

(** The fields of the object.  The client [_client] is represented by the
    calls made on it so far; the lock is part of the outside world. *)
Record ModbusHost : Type := mkModbusHost {
  _host : string;
  _port : Z;
  _client : list Obs;
  _subscriber_count : Z;
  _max_retry_count : Z;
  _retry_delay : Q
}.

(** [ModbusHost(host, port, max_retries=3, retry_delay=0.5)] *)
Definition __init__ (host : string) (port : Z) (max_retries : Z) (retry_delay : Q)
  : ModbusHost :=
  {| _host := host; _port := port; _client := []; _subscriber_count := 0;
     _max_retry_count := max_retries; _retry_delay := retry_delay |}.

Definition default_max_retries : Z := 3.
Definition default_retry_delay : Q := (1 # 2)%Q.

Definition async_connect : Prog unit :=
  connected <- trigger ClientConnected ;;
  if negb connected then (_ <- call ClientConnect ;; Ret tt) else Ret tt.

Definition async_disconnect : Prog unit :=
  connected <- trigger ClientConnected ;;
  if connected then call ClientClose else Ret tt.

Definition add_subscriber (self : ModbusHost) : ModbusHost :=
  {| _host := _host self; _port := _port self; _client := _client self;
     _subscriber_count := _subscriber_count self + 1;
     _max_retry_count := _max_retry_count self;
     _retry_delay := _retry_delay self |}.

Definition get_subscriber_count (self : ModbusHost) : Z := _subscriber_count self.

(** [remove_subscriber]: the new state of the object, and whether
    [asyncio.create_task(self.async_disconnect())] was scheduled. *)
Definition remove_subscriber (self : ModbusHost) : ModbusHost * bool :=
  let self' :=
    {| _host := _host self; _port := _port self; _client := _client self;
       _subscriber_count := _subscriber_count self - 1;
       _max_retry_count := _max_retry_count self;
       _retry_delay := _retry_delay self |} in
  (self', _subscriber_count self' =? 0).

Definition async_read_holding_registers (self : ModbusHost) (unit_id address count : Z)
  : Prog (option (list Z)) :=
  with_lock
    (for_in (range (_max_retry_count self))
       (fun attempt =>
          async_connect ;;
          result <- call (ReadHoldingRegisters address count unit_id) ;;
          if negb (isError result) && (len (registers result) =? count)
          then Ret (Some (Some (registers result)))
          else
            ((if attempt <? _max_retry_count self - 1
              then
                trigger (Log WARNING
                  "Modbus error reading holding registers at address %s, retrying"
                  address) ;;
                trigger (Sleep (_retry_delay self))
              else Ret tt) ;;
             Ret None))
       (trigger (Log ERROR
          "Modbus error reading holding registers at address %s, retries exhausted"
          address) ;;
        Ret None)).

Definition async_read_input_registers (self : ModbusHost) (unit_id address count : Z)
  : Prog (option (list Z)) :=
  with_lock
    (for_in (range (_max_retry_count self))
       (fun attempt =>
          async_connect ;;
          result <- call (ReadInputRegisters address count unit_id) ;;
          if negb (isError result) && (len (registers result) =? count)
          then Ret (Some (Some (registers result)))
          else
            ((if attempt <? _max_retry_count self - 1
              then
                trigger (Log WARNING
                  "Modbus error reading input registers at address %s, retrying"
                  address) ;;
                trigger (Sleep (_retry_delay self))
              else Ret tt) ;;
             Ret None))
       (trigger (Log ERROR
          "Modbus error reading input registers at address %s, retries exhausted"
          address) ;;
        Ret None)).

(** [result.bits[0]] *)
Definition bits_0 (result : Response) : Prog bool :=
  match bits result with
  | b :: _ => Ret b
  | [] => Raise IndexError
  end.

Definition async_read_coil (self : ModbusHost) (unit_id address : Z)
  : Prog (option bool) :=
  with_lock
    (async_connect ;;
     result <- call (ReadCoils address 1 unit_id) ;;
     if negb (isError result)
     then (b <- bits_0 result ;; Ret (Some b))
     else Ret None).

Definition async_read_coils (self : ModbusHost) (unit_id address count : Z)
  : Prog (option (list bool)) :=
  with_lock
    (for_in (range (_max_retry_count self))
       (fun attempts =>
          async_connect ;;
          result <- call (ReadCoils address count unit_id) ;;
          if negb (isError result) && (len (bits result) =? count)
          then Ret (Some (Some (bits result)))
          else
            ((if attempts <? _max_retry_count self - 1
              then
                trigger (Log WARNING
                  "Modbus error reading coils at address %s, retrying" address) ;;
                trigger (Sleep (_retry_delay self))
              else Ret tt) ;;
             Ret None))
       (trigger (Log ERROR
          "Modbus error reading coils at address %s, retries exhausted" address) ;;
        Ret None)).

(** The value of a write is [Some true] for [True], [Some false] for [False]
    and [None] for Python's [None], which a function gives when its body ends
    without a [return]. *)
Definition async_write_register (self : ModbusHost) (unit_id address value : Z)
  : Prog (option bool) :=
  with_lock
    (try_except
       (async_connect ;;
        result <- call (WriteRegister address value unit_id) ;;
        if negb (isError result)
        then Ret (Some true)
        else
          (trigger (Log ERROR
             "Modbus error writing register at address %s, retries exhausted"
             address) ;;
           Ret None))
       (fun e =>
          if isinstance_ModbusIOException e then
            trigger (Log ERROR
              "Modbus I/O error writing register at address %s: %s" address) ;;
            Ret (Some false)
          else if isinstance_ModbusException e then
            trigger (Log ERROR
              "Modbus error writing register at address %s: %s" address) ;;
            Ret (Some false)
          else if isinstance_Exception e then
            trigger (Log ERROR
              "Unknown error writing register at address %s: %s" address) ;;
            Ret (Some false)
          else Raise e)).

Definition async_write_coil (self : ModbusHost) (unit_id address : Z) (value : bool)
  : Prog (option bool) :=
  with_lock
    (try_except
       (async_connect ;;
        result <- call (WriteCoil address value unit_id) ;;
        if negb (isError result)
        then Ret (Some true)
        else
          (trigger (Log ERROR "Modbus error writing coil at address %s" address) ;;
           Ret None))
       (fun e =>
          if isinstance_ModbusIOException e then
            trigger (Log ERROR
              "Modbus I/O error writing coil at address %s: %s" address) ;;
            Ret (Some false)
          else if isinstance_ModbusException e then
            trigger (Log ERROR
              "Modbus error writing coil at address %s: %s" address) ;;
            Ret (Some false)
          else if isinstance_Exception e then
            trigger (Log ERROR
              "Unknown error writing coil at address %s: %s" address) ;;
            Ret (Some false)
          else Raise e)).

(** ** The retry loop shared by the three multi-value reads

    The three methods differ only in the client call, in the field of the
    response they read and in the text of their log records. *)

Definition retry_body {V} (self : ModbusHost) (ev : Event (exn + Response))
    (values : Response -> list V) (count address : Z) (retry_msg : string)
    (attempt : Z) : Prog (option (option (list V))) :=
  async_connect ;;
  result <- call ev ;;
  if negb (isError result) && (len (values result) =? count)
  then Ret (Some (Some (values result)))
  else
    ((if attempt <? _max_retry_count self - 1
      then
        trigger (Log WARNING retry_msg address) ;;
        trigger (Sleep (_retry_delay self))
      else Ret tt) ;;
     Ret None).

Definition retry_read {V} (self : ModbusHost) (ev : Event (exn + Response))
    (values : Response -> list V) (count address : Z)
    (retry_msg exhausted_msg : string) : Prog (option (list V)) :=
  with_lock
    (for_in (range (_max_retry_count self))
       (retry_body self ev values count address retry_msg)
       (trigger (Log ERROR exhausted_msg address) ;; Ret None)).

(** The two writes differ only in the client call and in their log records. *)
Definition write_once (ev : Event (exn + Response)) (address : Z)
    (error_msg io_msg modbus_msg unknown_msg : string) : Prog (option bool) :=
  with_lock
    (try_except
       (async_connect ;;
        result <- call ev ;;
        if negb (isError result)
        then Ret (Some true)
        else (trigger (Log ERROR error_msg address) ;; Ret None))
       (fun e =>
          if isinstance_ModbusIOException e then
            trigger (Log ERROR io_msg address) ;; Ret (Some false)
          else if isinstance_ModbusException e then
            trigger (Log ERROR modbus_msg address) ;; Ret (Some false)
          else if isinstance_Exception e then
            trigger (Log ERROR unknown_msg address) ;; Ret (Some false)
          else Raise e)).

(** ** Reading traces *)

(** What the retry policy is about: wire exchanges and waits. *)
Inductive Step : Set :=
| Attempt
| Wait (d : Q).

Definition step_of (ob : Obs) : option Step :=
  match ob with
  | Ob ev _ =>
      match ev with
      | ReadHoldingRegisters _ _ _ | ReadInputRegisters _ _ _ | ReadCoils _ _ _
      | WriteRegister _ _ _ | WriteCoil _ _ _ => Some Attempt
      | Sleep d => Some (Wait d)
      | _ => None
      end
  end.

Fixpoint skeleton (tr : list Obs) : list Step :=
  match tr with
  | [] => []
  | ob :: tr' =>
      match step_of ob with
      | Some s => s :: skeleton tr'
      | None => skeleton tr'
      end
  end.

Fixpoint count_attempts (ss : list Step) : nat :=
  match ss with
  | [] => 0
  | Attempt :: ss' => S (count_attempts ss')
  | Wait _ :: ss' => count_attempts ss'
  end.

(** The number of wire exchanges in a trace. *)
Definition attempts (tr : list Obs) : nat := count_attempts (skeleton tr).

(** [n] attempts with a wait of [d] between any two consecutive ones. *)
Fixpoint spaced (n : nat) (d : Q) : list Step :=
  match n with
  | O => []
  | S n' =>
      match n' with
      | O => [Attempt]
      | S _ => Attempt :: Wait d :: spaced n' d
      end
  end.

(** The [ERROR] records of a trace. *)
Definition is_error_log (ob : Obs) : bool :=
  match ob with
  | Ob ev _ => match ev with Log ERROR _ _ => true | _ => false end
  end.

Fixpoint error_logs (tr : list Obs) : nat :=
  match tr with
  | [] => 0
  | ob :: tr' => (if is_error_log ob then 1 else 0) + error_logs tr'
  end.

(** The exception a call of the trace was answered with, if any. *)
Definition raised (ob : Obs) : option exn :=
  match ob with
  | Ob ev x =>
      match ev in Event X return X -> option exn with
      | ClientConnect | ClientClose
      | ReadHoldingRegisters _ _ _ | ReadInputRegisters _ _ _ | ReadCoils _ _ _
      | WriteRegister _ _ _ | WriteCoil _ _ _ =>
          fun x => match x with inl e => Some e | inr _ => None end
      | _ => fun _ => None
      end x
  end.

(** The transport raised [e] during the trace. *)
Definition raised_in (tr : list Obs) (e : exn) : Prop := In (Some e) (map raised tr).

(** The response a wire call of the trace was answered with, if any. *)
Definition responded (ob : Obs) : option Response :=
  match ob with
  | Ob ev x =>
      match ev in Event X return X -> option Response with
      | ReadHoldingRegisters _ _ _ | ReadInputRegisters _ _ _ | ReadCoils _ _ _
      | WriteRegister _ _ _ | WriteCoil _ _ _ =>
          fun x => match x with inl _ => None | inr r => Some r end
      | _ => fun _ => None
      end x
  end.

Definition responded_in (tr : list Obs) (r : Response) : Prop :=
  In (Some r) (map responded tr).

(** ** Acceptance of a read response, in the words of the specification *)

Inductive ReadOp : Set := HoldingRegisters | InputRegisters | Coils.

Definition read_call (op : ReadOp) (address count unit_id : Z) : Event (exn + Response) :=
  match op with
  | HoldingRegisters => ReadHoldingRegisters address count unit_id
  | InputRegisters => ReadInputRegisters address count unit_id
  | Coils => ReadCoils address count unit_id
  end.

Definition value_count (op : ReadOp) (r : Response) : Z :=
  match op with
  | HoldingRegisters | InputRegisters => len (registers r)
  | Coils => len (bits r)
  end.

(** No protocol-level error flag, and as many values as were asked for. *)
Definition Accepted (op : ReadOp) (count : Z) (r : Response) : Prop :=
  isError r = false /\ value_count op r = count.

Definition Rejected (op : ReadOp) (count : Z) (r : Response) : Prop :=
  isError r = true \/ value_count op r <> count.

(** [connect()] does not raise. *)
Definition connect_ok (O : Oracle) : Prop :=
  forall h, exists b, O h _ ClientConnect = inr b.

(** After [h] and [j] further wire exchanges, the call [ev] is answered by a
    response with the error flag or with another number of values than
    [count]. *)
Definition rejects_at {V} (O : Oracle) (ev : Event (exn + Response))
    (values : Response -> list V) (count : Z) (h : list Obs) (j : nat) : Prop :=
  forall tr, attempts tr = j ->
    exists r, O (h ++ tr) _ ev = inr r
              /\ (isError r = true \/ len (values r) <> count).

(** It is answered by [r], which has no error flag and [count] values. *)
Definition accepts_at {V} (O : Oracle) (ev : Event (exn + Response))
    (values : Response -> list V) (count : Z) (h : list Obs) (j : nat)
    (r : Response) : Prop :=
  (forall tr, attempts tr = j -> O (h ++ tr) _ ev = inr r)
  /\ isError r = false /\ len (values r) = count.

(** What a multi-value read gives after the history [h]: the returned value
    ([regs] for the register reads, [bts] for the coil read) and a property of
    the calls it made. *)
Definition read_returns (O : Oracle) (op : ReadOp) (self : ModbusHost)
    (unit_id address count : Z) (h : list Obs)
    (regs : option (list Z)) (bts : option (list bool))
    (P : list Obs -> Prop) : Prop :=
  match op with
  | HoldingRegisters =>
      exists tr,
        interp O (async_read_holding_registers self unit_id address count) h
          = (inr regs, tr) /\ P tr
  | InputRegisters =>
      exists tr,
        interp O (async_read_input_registers self unit_id address count) h
          = (inr regs, tr) /\ P tr
  | Coils =>
      exists tr,
        interp O (async_read_coils self unit_id address count) h
          = (inr bts, tr) /\ P tr
  end.

(** After [h] and [j] further wire exchanges, the read call of [op] is
    answered by a rejected response. *)
Definition nth_rejected (O : Oracle) (op : ReadOp) (unit_id address count : Z)
    (h : list Obs) (j : nat) : Prop :=
  forall tr, attempts tr = j ->
    exists r, O (h ++ tr) _ (read_call op address count unit_id) = inr r
              /\ Rejected op count r.

(** It is answered by the response [r]. *)
Definition nth_answer (O : Oracle) (op : ReadOp) (unit_id address count : Z)
    (h : list Obs) (j : nat) (r : Response) : Prop :=
  forall tr, attempts tr = j ->
    O (h ++ tr) _ (read_call op address count unit_id) = inr r.

(** ** Exceptions raised by the transport *)

(** A run of a write converts: nothing deriving from [Exception] escapes, and
    when the transport raised such an exception the result is [False]. *)
Definition converts (run : (exn + option bool) * list Obs) : Prop :=
  (forall e, fst run = inl e -> isinstance_Exception e = false)
  /\ (forall e, raised_in (snd run) e -> isinstance_Exception e = true ->
        fst run = inr (Some false)).

(** A run propagates: an exception raised by the transport is the outcome. *)
Definition propagates {A} (run : (exn + A) * list Obs) : Prop :=
  forall e, raised_in (snd run) e -> fst run = inl e.

(** ** A scripted transport

    The mock of the specification's scenarios: the [j]-th wire exchange is
    answered by the [j]-th entry of a script (a protocol error once the script
    is over); the connection is down until [connect()] is called and up from
    then on until [close()]. *)

Definition error_response : Response :=
  {| isError := true; registers := []; bits := [] |}.

Fixpoint connected_after (h : list Obs) (c : bool) : bool :=
  match h with
  | [] => c
  | Ob ev _ :: h' =>
      match ev with
      | ClientConnect => connected_after h' true
      | ClientClose => connected_after h' false
      | _ => connected_after h' c
      end
  end.

Definition scripted (script : list (exn + Response)) : Oracle :=
  fun h X ev =>
    match ev in Event X return X with
    | LockAcquire | LockRelease | Sleep _ | Log _ _ _ => tt
    | ClientConnected => connected_after h false
    | ClientConnect => inr true
    | ClientClose => inr tt
    | ReadHoldingRegisters _ _ _ | ReadInputRegisters _ _ _ | ReadCoils _ _ _
    | WriteRegister _ _ _ | WriteCoil _ _ _ =>
        nth (attempts h) script (inr error_response)
    end.

(** A host as [async_setup_entry] creates it. *)
Definition example_host : ModbusHost :=
  __init__ "10.0.0.5" 502 default_max_retries default_retry_delay.

Definition response_42 : Response :=
  {| isError := false; registers := [42]; bits := [] |}.

(** A response without the error flag and without any bit. *)
Definition empty_ok_response : Response :=
  {| isError := false; registers := []; bits := [] |}.

Definition response_bit (b : bool) : Response :=
  {| isError := false; registers := []; bits := [b; false; false; false; false; false; false; false] |}.

(** ** The laws of a well-behaved transport

    What the specification takes for granted about the client: [connect()]
    establishes the connection, [close()] closes it, neither raises, and
    reading [connected] tells the state without changing it. *)
Record transport_laws (O : Oracle) : Prop := mkTransportLaws {
  probe_stable : forall h,
    O (h ++ [Ob ClientConnected (O h _ ClientConnected)]) _ ClientConnected
    = O h _ ClientConnected;
  connect_up : forall h,
    O h _ ClientConnect = inr true
    /\ O (h ++ [Ob ClientConnect (inr true)]) _ ClientConnected = true;
  close_down : forall h,
    O h _ ClientClose = inr tt
    /\ O (h ++ [Ob ClientClose (inr tt)]) _ ClientConnected = false
}.

(** [close()] does not raise. *)
Definition close_ok (O : Oracle) : Prop :=
  forall h, exists u, O h _ ClientClose = inr u.

(** ** The host registry of [__init__.py] *)

Record ConfigEntry : Type := mkConfigEntry {
  entry_id : string;
  CONF_HOST : string;
  CONF_PORT : Z
}.

(** [f"{host}:{port}"] *)
Definition host_key (entry : ConfigEntry) : string :=
  CONF_HOST entry +:+ ":" +:+ pretty (CONF_PORT entry).

(** [hass.data] and what it refers to: the [ModbusHost] objects by reference,
    the dict [hass.data[DOMAIN]] from host keys to references, the references
    [hass.data[entry.entry_id]], and the tasks that [asyncio.create_task] has
    scheduled and the event loop has not run yet (each one an
    [async_disconnect()] on a reference). *)
Record Hass : Type := mkHass {
  objects : gmap nat ModbusHost;
  domain_data : gmap string nat;
  entry_data : gmap string nat;
  tasks : list nat
}.

(** A Home Assistant instance before [async_setup]. *)
Definition new_hass : Hass :=
  {| objects := ∅; domain_data := ∅; entry_data := ∅; tasks := [] |}.

(** Code over [hass]: state passing, with Python exceptions. *)
Definition HA (A : Type) : Type := Hass -> (exn + A) * Hass.

#[global] Instance HA_ret : MRet HA := fun A a s => (inr a, s).

#[global] Instance HA_bind : MBind HA := fun A B f m s =>
  match m s with
  | (inl e, s') => (inl e, s')
  | (inr a, s') => f a s'
  end.

(** The result of an awaited call into Home Assistant itself. *)
Definition await {A} (r : exn + A) : HA A := fun s => (r, s).

(** [host_key in hass.data[DOMAIN]] *)
Definition domain_contains (k : string) : HA bool := fun s =>
  (inr (match domain_data s !! k with Some _ => true | None => false end), s).

(** [hass.data[DOMAIN][host_key]] *)
Definition domain_getitem (k : string) : HA nat := fun s =>
  match domain_data s !! k with
  | Some l => (inr l, s)
  | None => (inl KeyError, s)
  end.

(** [hass.data[DOMAIN][host_key] = l] *)
Definition domain_setitem (k : string) (l : nat) : HA unit := fun s =>
  (inr tt,
   {| objects := objects s; domain_data := <[k := l]> (domain_data s);
      entry_data := entry_data s; tasks := tasks s |}).

(** [del hass.data[DOMAIN][host_key]] *)
Definition domain_delitem (k : string) : HA unit := fun s =>
  match domain_data s !! k with
  | Some _ =>
      (inr tt,
       {| objects := objects s; domain_data := delete k (domain_data s);
          entry_data := entry_data s; tasks := tasks s |})
  | None => (inl KeyError, s)
  end.

(** [hass.data[entry.entry_id] = l] *)
Definition entry_setitem (id : string) (l : nat) : HA unit := fun s =>
  (inr tt,
   {| objects := objects s; domain_data := domain_data s;
      entry_data := <[id := l]> (entry_data s); tasks := tasks s |}).

(** [del hass.data[entry.entry_id]] *)
Definition entry_delitem (id : string) : HA unit := fun s =>
  match entry_data s !! id with
  | Some _ =>
      (inr tt,
       {| objects := objects s; domain_data := domain_data s;
          entry_data := delete id (entry_data s); tasks := tasks s |})
  | None => (inl KeyError, s)
  end.

(** A new object, at a reference that designates no object yet. *)
Definition new_object (o : ModbusHost) : HA nat := fun s =>
  let l := fresh (dom (objects s)) in
  (inr l,
   {| objects := <[l := o]> (objects s); domain_data := domain_data s;
      entry_data := entry_data s; tasks := tasks s |}).

(** The object behind a reference (a reference always designates one; the
    other branch is never taken from [new_hass]). *)
Definition load (l : nat) : HA ModbusHost := fun s =>
  match objects s !! l with
  | Some o => (inr o, s)
  | None => (inl OtherException, s)
  end.

Definition store (l : nat) (o : ModbusHost) : HA unit := fun s =>
  (inr tt,
   {| objects := <[l := o]> (objects s); domain_data := domain_data s;
      entry_data := entry_data s; tasks := tasks s |}).

(** [asyncio.create_task(self.async_disconnect())] for the object at [l] *)
Definition create_task (l : nat) : HA unit := fun s =>
  (inr tt,
   {| objects := objects s; domain_data := domain_data s;
      entry_data := entry_data s; tasks := tasks s ++ [l] |}).

(** The methods of [ModbusHost], called through a reference. *)
Definition call_add_subscriber (l : nat) : HA unit :=
  (o ← load l; store l (add_subscriber o))%stdpp.

Definition call_remove_subscriber (l : nat) : HA unit :=
  (o ← load l;
   store l (fst (remove_subscriber o));;
   if snd (remove_subscriber o) then create_task l else mret tt)%stdpp.

Definition call_get_subscriber_count (l : nat) : HA Z :=
  (o ← load l; mret (get_subscriber_count o))%stdpp.

(** Replacing the client of an object by its client after more calls. *)
Definition with_client (o : ModbusHost) (c : list Obs) : ModbusHost :=
  {| _host := _host o; _port := _port o; _client := c;
     _subscriber_count := _subscriber_count o;
     _max_retry_count := _max_retry_count o;
     _retry_delay := _retry_delay o |}.

(** [await modbus_host.async_disconnect()] *)
Definition await_async_disconnect (O : Oracle) (l : nat) : HA unit :=
  (o ← load l;
   store l (with_client o (_client o ++ snd (interp O async_disconnect (_client o))));;
   await (fst (interp O async_disconnect (_client o))))%stdpp.

(** [async_setup(hass, config)] *)
Definition async_setup : HA bool := fun s =>
  (inr true,
   {| objects := objects s; domain_data := ∅;
      entry_data := entry_data s; tasks := tasks s |}).

(** [async_setup_entry(hass, entry)]; [forward] is the outcome of
    [hass.config_entries.async_forward_entry_setups]. *)
Definition async_setup_entry (entry : ConfigEntry) (forward : exn + unit) : HA bool :=
  (let host := CONF_HOST entry in
   let port := CONF_PORT entry in
   let host_key := host_key entry in
   present ← domain_contains host_key;
   (if negb present
    then
      l ← new_object (__init__ host port default_max_retries default_retry_delay);
      domain_setitem host_key l
    else mret tt);;
   l ← domain_getitem host_key;
   call_add_subscriber l;;
   l ← domain_getitem host_key;
   entry_setitem (entry_id entry) l;;
   await forward;;
   mret true)%stdpp.

(** [async_unload_entry(hass, entry)]; [unload] is the outcome of
    [hass.config_entries.async_unload_platforms]. *)
Definition async_unload_entry (O : Oracle) (entry : ConfigEntry) (unload : exn + bool)
  : HA bool :=
  (let host_key := host_key entry in
   unload_ok ← await unload;
   (if unload_ok : bool
    then
      modbus_host ← domain_getitem host_key;
      call_remove_subscriber modbus_host;;
      n ← call_get_subscriber_count modbus_host;
      (if n =? 0
       then
         await_async_disconnect O modbus_host;;
         domain_delitem host_key
       else mret tt);;
      entry_delitem (entry_id entry)
    else mret tt);;
   mret unload_ok)%stdpp.

(** The event loop runs the scheduled tasks; what a task raises stays in the
    task. *)
Definition run_pending_tasks (O : Oracle) (s : Hass) : Hass :=
  foldl (fun s l => snd (await_async_disconnect O l s))
    {| objects := objects s; domain_data := domain_data s;
       entry_data := entry_data s; tasks := [] |}
    (tasks s).

(** What happens to the registry: a configuration entry is set up (acquire),
    unloaded with success (release), or the event loop takes its turn. *)
Inductive Call : Type :=
| Acquire (entry : ConfigEntry)
| Release (entry : ConfigEntry)
| Loop.

Definition step (O : Oracle) (s : Hass) (c : Call) : Hass :=
  match c with
  | Acquire entry => snd (async_setup_entry entry (inr tt) s)
  | Release entry => snd (async_unload_entry O entry (inr true) s)
  | Loop => run_pending_tasks O s
  end.

Definition run (O : Oracle) (calls : list Call) (s : Hass) : Hass :=
  foldl (step O) s calls.

(** The number of acquires and of releases of the endpoint [k]. *)
Fixpoint acquired (k : string) (calls : list Call) : Z :=
  match calls with
  | [] => 0
  | Acquire entry :: calls' =>
      (if bool_decide (host_key entry = k) then 1 else 0) + acquired k calls'
  | _ :: calls' => acquired k calls'
  end.

Fixpoint released (k : string) (calls : list Call) : Z :=
  match calls with
  | [] => 0
  | Release entry :: calls' =>
      (if bool_decide (host_key entry = k) then 1 else 0) + released k calls'
  | _ :: calls' => released k calls'
  end.

(** No release of [k] without an acquire of [k] still to be released, [n]
    being the number of those at the start. *)
Fixpoint bracketed (k : string) (n : Z) (calls : list Call) : bool :=
  match calls with
  | [] => true
  | Acquire entry :: calls' =>
      bracketed k (if bool_decide (host_key entry = k) then n + 1 else n) calls'
  | Release entry :: calls' =>
      if bool_decide (host_key entry = k)
      then (0 <? n) && bracketed k (n - 1) calls'
      else bracketed k n calls'
  | Loop :: calls' => bracketed k n calls'
  end.

(** The subscriber count of an endpoint: that of its host object, and 0 when
    the registry has no host for it. *)
Definition subscriber_count (s : Hass) (k : string) : Z :=
  match domain_data s !! k with
  | Some l =>
      match objects s !! l with
      | Some o => _subscriber_count o
      | None => 0
      end
  | None => 0
  end.

(** What holds of every registry reached from [new_hass]: a registered host
    is an object with at least one subscriber, and two endpoints never share
    an object. *)
Definition registry_ok (s : Hass) : Prop :=
  (forall k l, domain_data s !! k = Some l ->
     exists o, objects s !! l = Some o /\ 0 < _subscriber_count o)
  /\ (forall k1 k2 l, domain_data s !! k1 = Some l -> domain_data s !! k2 = Some l ->
        k1 = k2).

(** Two configuration entries for one endpoint, and [hass.data] right after
    [async_setup]. *)
Definition entry_1 : ConfigEntry := mkConfigEntry "entry-1" "10.0.0.5" 502.
Definition entry_2 : ConfigEntry := mkConfigEntry "entry-2" "10.0.0.5" 502.
Definition fresh_hass : Hass := snd (async_setup new_hass).
Definition example_calls : list Call :=
  [Acquire entry_1; Acquire entry_2; Release entry_1; Loop; Release entry_2; Loop].

(** ** Concurrent operations on one host

    Tasks of the event loop, each one a register operation, interleaved at
    every call that leaves the module.  The lock is [asyncio.Lock]: acquiring
    proceeds only when nobody holds it. *)

Inductive Operation : Type :=
| OpReadHoldingRegisters (unit_id address count : Z)
| OpReadInputRegisters (unit_id address count : Z)
| OpReadCoil (unit_id address : Z)
| OpReadCoils (unit_id address count : Z)
| OpWriteRegister (unit_id address value : Z)
| OpWriteCoil (unit_id address : Z) (value : bool).

(** A task is running (or waiting for the lock, when its next call is
    [LockAcquire]), or suspended in a call whose answer is pending. *)
Inductive Task : Type :=
| Running {A : Type} (p : Prog A)
| Awaiting {A X : Type} (ev : Event X) (k : X -> Prog A).

Definition start (self : ModbusHost) (op : Operation) : Task :=
  match op with
  | OpReadHoldingRegisters u a c => Running (async_read_holding_registers self u a c)
  | OpReadInputRegisters u a c => Running (async_read_input_registers self u a c)
  | OpReadCoil u a => Running (async_read_coil self u a)
  | OpReadCoils u a c => Running (async_read_coils self u a c)
  | OpWriteRegister u a v => Running (async_write_register self u a v)
  | OpWriteCoil u a v => Running (async_write_coil self u a v)
  end.

Definition is_acquire {X} (ev : Event X) : bool :=
  match ev with LockAcquire => true | _ => false end.

Definition is_release {X} (ev : Event X) : bool :=
  match ev with LockRelease => true | _ => false end.

(** The calls that touch the transport. *)
Definition is_transport {X} (ev : Event X) : bool :=
  match ev with
  | ClientConnected | ClientConnect | ClientClose
  | ReadHoldingRegisters _ _ _ | ReadInputRegisters _ _ _ | ReadCoils _ _ _
  | WriteRegister _ _ _ | WriteCoil _ _ _ => true
  | _ => false
  end.

(** A wire exchange of the task is in flight. *)
Definition in_flight (t : Task) : bool :=
  match t with
  | Running _ => false
  | Awaiting ev _ => is_transport ev
  end.

Record Config : Type := mkConfig {
  lock : option nat;          (* the task that holds the lock *)
  pool : list Task;
  journal : list Obs          (* the calls answered so far, all tasks together *)
}.

Definition initial (self : ModbusHost) (ops : list Operation) : Config :=
  {| lock := None; pool := map (start self) ops; journal := [] |}.

Inductive sched_step (O : Oracle) : Config -> Config -> Prop :=
| step_acquire (c : Config) (i : nat) {A} (k : unit -> Prog A) :
    pool c !! i = Some (Running (Vis LockAcquire k)) ->
    lock c = None ->
    sched_step O c
      {| lock := Some i; pool := <[i := Running (k tt)]> (pool c);
         journal := journal c ++ [Ob LockAcquire tt] |}
| step_release (c : Config) (i : nat) {A} (k : unit -> Prog A) :
    pool c !! i = Some (Running (Vis LockRelease k)) ->
    sched_step O c
      {| lock := None; pool := <[i := Running (k tt)]> (pool c);
         journal := journal c ++ [Ob LockRelease tt] |}
| step_issue (c : Config) (i : nat) {A X} (ev : Event X) (k : X -> Prog A) :
    pool c !! i = Some (Running (Vis ev k)) ->
    is_acquire ev = false -> is_release ev = false ->
    sched_step O c
      {| lock := lock c; pool := <[i := Awaiting ev k]> (pool c);
         journal := journal c |}
| step_answer (c : Config) (i : nat) {A X} (ev : Event X) (k : X -> Prog A) :
    pool c !! i = Some (Awaiting ev k) ->
    sched_step O c
      {| lock := lock c;
         pool := <[i := Running (k (O (journal c) _ ev))]> (pool c);
         journal := journal c ++ [Ob ev (O (journal c) _ ev)] |}.

(** The program has ended: it returned or raised. *)
Definition Finished {A} (p : Prog A) : Prop :=
  match p with
  | Ret _ | Raise _ => True
  | Vis _ _ => False
  end.

(** The program holds the lock: on every path it makes no lock call until
    one [LockRelease], right after which it ends. *)
Fixpoint Closing {A} (p : Prog A) : Prop :=
  match p with
  | Ret _ | Raise _ => False
  | Vis ev k =>
      if is_release ev then forall x, Finished (k x)
      else if is_acquire ev then False
      else forall x, Closing (k x)
  end.

(** The program is one scoped acquisition of the lock: it starts by
    [LockAcquire] and goes on holding the lock as [Closing] says. *)
Definition Scoped {A} (p : Prog A) : Prop :=
  match p with
  | Vis ev k => is_acquire ev = true /\ forall x, Closing (k x)
  | _ => False
  end.

(** The program makes no lock call. *)
Fixpoint LockFree {A} (p : Prog A) : Prop :=
  match p with
  | Ret _ | Raise _ => True
  | Vis ev k =>
      is_acquire ev = false /\ is_release ev = false /\ forall x, LockFree (k x)
  end.

(** What holds of a task, by whether it holds the lock. *)
Definition task_ok (holder : bool) (t : Task) : Prop :=
  match t with
  | Running p => if holder then Closing p else Scoped p \/ Finished p
  | Awaiting ev k =>
      holder = true /\ is_acquire ev = false /\ is_release ev = false
      /\ forall x, Closing (k x)
  end.

Definition config_ok (c : Config) : Prop :=
  forall i t, pool c !! i = Some t -> task_ok (bool_decide (lock c = Some i)) t.

(** Two states of [hass.data] with the same registry and, reference by
    reference, the same subscriber counts. *)
Definition same_counts (s s' : Hass) : Prop :=
  domain_data s' = domain_data s
  /\ forall l, _subscriber_count <$> objects s' !! l
               = _subscriber_count <$> objects s !! l.

(** The task has still to start, and is one scoped acquisition of the lock. *)
Definition scoped_task (t : Task) : Prop :=
  match t with
  | Running p => Scoped p
  | Awaiting _ _ => False
  end.


(** ** More ways of reading traces *)

Definition is_log (ob : Obs) : bool :=
  match ob with
  | Ob ev _ => match ev with Log _ _ _ => true | _ => false end
  end.

(** The log records of a trace, of any level. *)
Fixpoint log_records (tr : list Obs) : nat :=
  match tr with
  | [] => 0
  | ob :: tr' => (if is_log ob then 1 else 0) + log_records tr'
  end.

(** The outcome of a read is the failure sentinel. *)
Definition is_sentinel {A} (res : exn + option A) : bool :=
  match res with
  | inr None => true
  | _ => false
  end.

(** What a run of a write looks like, whatever the transport does: at most
    one wire call and no wait; [True] exactly when the write call was answered
    by a response without the error flag; [None] only on a response with the
    error flag; [False] only when the transport raised an [Exception]; one
    error record unless the write returned [True] or let an exception out. *)
Definition write_outcome (run : (exn + option bool) * list Obs) : Prop :=
  (attempts (snd run) <= 1)%nat
  /\ (forall d, ~ In (Wait d) (skeleton (snd run)))
  /\ (fst run = inr (Some true)
      <-> exists r, responded_in (snd run) r /\ isError r = false)
  /\ (fst run = inr None -> exists r, responded_in (snd run) r /\ isError r = true)
  /\ (fst run = inr (Some false) ->
      exists e, raised_in (snd run) e /\ isinstance_Exception e = true)
  /\ error_logs (snd run)
     = match fst run with
       | inr (Some true) | inl _ => 0%nat
       | _ => 1%nat
       end.

(** What a run of the single-coil read looks like, whatever the transport
    does: at most one wire call, no wait and no log record at all; [None]
    exactly when the read call was answered by a response with the error
    flag. *)
Definition read_coil_outcome (run : (exn + option bool) * list Obs) : Prop :=
  (attempts (snd run) <= 1)%nat
  /\ (forall d, ~ In (Wait d) (skeleton (snd run)))
  /\ log_records (snd run) = 0%nat
  /\ (fst run = inr None
      <-> exists r, responded_in (snd run) r /\ isError r = true).

(** A transport that is connected and whose [close()] raises. *)
Definition closing_fails : Oracle :=
  fun h X ev =>
    match ev in Event X return X with
    | LockAcquire | LockRelease | Sleep _ | Log _ _ _ => tt
    | ClientConnected => true
    | ClientConnect => inr true
    | ClientClose => inl ConnectionException
    | ReadHoldingRegisters _ _ _ | ReadInputRegisters _ _ _ | ReadCoils _ _ _
    | WriteRegister _ _ _ | WriteCoil _ _ _ => inr error_response
    end.

(** ** Keys built from host, port and unit id *)

(** The colon that separates the parts of a key: [":" = String colon ""]. *)
Definition colon : Ascii.ascii :=
  Ascii.Ascii false true false true true true false false.

(** The character occurs in the string. *)
Fixpoint has_char (c : Ascii.ascii) (s : string) : bool :=
  match s with
  | EmptyString => false
  | String c' s' => if decide (c = c') then true else has_char c s'
  end.

(** ** [config_flow.py] *)

(** The user input, once [user_schema] has validated it: a name, a host, a
    port (502 when left out) and a unit id. *)
Record UserInput : Type := mkUserInput {
  ui_name : string;
  ui_host : string;
  ui_port : Z;
  ui_unit_id : Z
}.

(** [f"{host}:{port}:{unit_id}"] *)
Definition unique_id (host : string) (port unit_id : Z) : string :=
  host +:+ ":" +:+ pretty port +:+ ":" +:+ pretty unit_id.

(** What a step of the flow gives: a form to show, an entry to create, or the
    abort that [_abort_if_unique_id_configured] raises when an entry with the
    unique id of the flow exists. *)
Inductive FlowResult : Type :=
| ShowForm (step_id : string)
| CreateEntry (title : string) (data : UserInput)
| AbortFlow (reason : string).

(** [SiemensRDF302ConfigFlow.async_step_user]; [configured] are the unique
    ids of the entries that exist. *)
Definition async_step_user (configured : gset string) (user_input : option UserInput)
  : FlowResult :=
  match user_input with
  | Some input =>
      let host := ui_host input in
      let port := ui_port input in
      let unit_id := ui_unit_id input in
      let unique_id := unique_id host port unit_id in
      if decide (unique_id ∈ configured)
      then AbortFlow "already_configured"
      else
        CreateEntry (ui_name input)
          {| ui_name := ui_name input; ui_host := host; ui_port := port;
             ui_unit_id := unit_id |}
  | None => ShowForm "user"
  end.

(** The entry that Home Assistant makes of a created flow result. *)
Definition entry_of (id : string) (data : UserInput) : ConfigEntry :=
  {| entry_id := id; CONF_HOST := ui_host data; CONF_PORT := ui_port data |}.

(** ** [climate.py] *)

(** The register writes of a trace: address, value and unit id of each. *)
Definition written (ob : Obs) : option (Z * Z * Z) :=
  match ob with
  | Ob ev _ =>
      match ev with
      | WriteRegister address value unit_id => Some (address, value, unit_id)
      | _ => None
      end
  end.

Definition writes (tr : list Obs) : list (Z * Z * Z) := omap written tr.

(** [d.get(k, default)] on a dict literal, its items in the order written. *)
Fixpoint dict_get {K V} `{EqDecision K} (d : list (K * V)) (k : K) (default : V) : V :=
  match d with
  | [] => default
  | (k', v) :: d' => if decide (k = k') then v else dict_get d' k default
  end.

(** Python's truth value of what a write returns: [True], [False] or [None]. *)
Definition truthy (success : option bool) : bool :=
  match success with
  | Some true => true
  | _ => false
  end.

Module Climate.

(** [homeassistant.components.climate.HVACMode] *)
Inductive HVACMode : Set := OFF | HEAT | COOL | HEAT_COOL | AUTO | DRY | FAN_ONLY.

#[global] Instance HVACMode_eq_dec : EqDecision HVACMode.
Proof. solve_decision. Defined.

Definition PRESET_NONE : string := "none".
Definition PRESET_ECO : string := "eco".
Definition PRESET_AWAY : string := "away".
Definition PRESET_COMFORT : string := "comfort".

(** A call of the module's [_LOGGER]; the record keeps the format string. *)
Inductive LogCall : Set :=
| debug (msg : string)
| warning (msg : string)
| error (msg : string).

Fixpoint errors (log : list LogCall) : nat :=
  match log with
  | [] => 0%nat
  | error _ :: log' => S (errors log')
  | _ :: log' => errors log'
  end.

(** The fields of the entity that the methods below read or assign.  The two
    temperatures are floating-point numbers and are left out with the methods
    that compute them; [_attr_device_info], which no method reads, is left
    out with the [device_info] argument of [__init__]. *)
Record SiemensRDF302 : Type := mkSiemensRDF302 {
  _name : string;
  _modbus : ModbusHost;
  _unit_id : Z;
  _unique_id : string;
  _hvac_mode : HVACMode;
  _fan_mode : string;
  _attr_preset_mode : string
}.

Definition __init__ (name : string) (modbus_host : ModbusHost) (unit_id : Z)
  : SiemensRDF302 * list LogCall :=
  ({| _name := name;
      _modbus := modbus_host;
      _unit_id := unit_id;
      _unique_id := name +:+ ":" +:+ pretty unit_id;
      _hvac_mode := OFF;
      _fan_mode := "off";
      _attr_preset_mode := PRESET_NONE |},
   [debug "Creating ModbusThermostat entity: %s, unit ID: %s"]).

Definition hvac_modes : list HVACMode := [COOL; HEAT].

Definition preset_modes : list string := [PRESET_COMFORT; PRESET_ECO; PRESET_AWAY].

Definition fan_modes : list string := ["low"; "medium"; "high"; "off"].

Definition min_temp : Z := 5.

Definition max_temp : Z := 40.

(** [self._hvac_mode = hvac_mode] *)
Definition set_hvac_mode (self : SiemensRDF302) (hvac_mode : HVACMode) : SiemensRDF302 :=
  {| _name := _name self; _modbus := _modbus self; _unit_id := _unit_id self;
     _unique_id := _unique_id self; _hvac_mode := hvac_mode;
     _fan_mode := _fan_mode self; _attr_preset_mode := _attr_preset_mode self |}.

(** [self._fan_mode = fan_mode] *)
Definition set_fan_mode (self : SiemensRDF302) (fan_mode : string) : SiemensRDF302 :=
  {| _name := _name self; _modbus := _modbus self; _unit_id := _unit_id self;
     _unique_id := _unique_id self; _hvac_mode := _hvac_mode self;
     _fan_mode := fan_mode; _attr_preset_mode := _attr_preset_mode self |}.

(** The value that [async_set_hvac_mode] writes for a mode. *)
Definition hvac_mode_value (hvac_mode : HVACMode) : Z :=
  dict_get [(COOL, 0); (HEAT, 1)] hvac_mode 0.

(** The value that [async_set_fan_mode] writes for a mode. *)
Definition fan_mode_value (fan_mode : string) : Z :=
  dict_get [("auto", 0); ("low", 33); ("medium", 66); ("high", 100)] fan_mode 0.

Section Registers.

(** The register addresses of [const.py]. *)
Variables (REGISTER_HEAT_COOL_RW REGISTER_FAN_SPEED_RW : Z).

Definition async_set_hvac_mode (self : SiemensRDF302) (hvac_mode : HVACMode)
  : Prog (SiemensRDF302 * list LogCall) :=
  let mode_value := hvac_mode_value hvac_mode in
  let log := [debug "Setting HVAC mode to %s"] in
  if decide (_hvac_mode self <> hvac_mode)
  then
    success <- async_write_register (_modbus self)
                 (_unit_id self) REGISTER_HEAT_COOL_RW mode_value ;;
    if truthy success
    then Ret (set_hvac_mode self hvac_mode, log)
    else Ret (self, log ++ [error "Error setting HVAC mode to %s"])
  else Ret (self, log).

Definition async_set_fan_mode (self : SiemensRDF302) (fan_mode : string)
  : Prog (SiemensRDF302 * list LogCall) :=
  let fan_value := fan_mode_value fan_mode in
  let log := [debug "Setting fan mode to %s"] in
  success <- async_write_register (_modbus self)
               (_unit_id self) REGISTER_FAN_SPEED_RW fan_value ;;
  if truthy success
  then Ret (set_fan_mode self fan_mode, log)
  else Ret (self, log ++ [error "Error setting fan mode to %s"]).

End Registers.

Definition _value_to_hvac_mode (mode : Z) : HVACMode :=
  dict_get [(0, COOL); (1, HEAT)] mode HEAT.

Definition _value_to_fan_mode (value : Z) : string :=
  dict_get [(0, "off"); (33, "low"); (66, "medium"); (100, "high")] value "off".

Definition _value_to_preset_mode (value : Z) : string :=
  dict_get [(1, PRESET_COMFORT); (3, PRESET_ECO); (4, PRESET_AWAY)] value PRESET_AWAY.

Definition _decode_bcd (value : Z) : Z :=
  Z.land value 0xF
  + Z.land (Z.shiftr value 4) 0xF * 10
  + Z.land (Z.shiftr value 8) 0xF * 100
  + Z.land (Z.shiftr value 12) 0xF * 1000.

(** What a run of a setter looks like: at most one wire call, no register
    write but the one of the setter, nothing deriving from [Exception]
    escaping, and the entity changed exactly when the write call was answered
    by a response without the error flag; otherwise one error is logged. *)
Definition setter_outcome (self committed : SiemensRDF302) (address value unit_id : Z)
    (run : (exn + SiemensRDF302 * list LogCall) * list Obs) : Prop :=
  let accepted := exists r, responded_in (snd run) r /\ isError r = false in
  (attempts (snd run) <= 1)%nat
  /\ (forall w, In w (writes (snd run)) -> w = (address, value, unit_id))
  /\ match fst run with
     | inl e => isinstance_Exception e = false /\ ~ accepted
     | inr (self', log) =>
         (accepted /\ self' = committed /\ errors log = 0%nat)
         \/ (~ accepted /\ self' = self /\ errors log = 1%nat)
     end.

(** An entity as [__init__] makes it, on the example host. *)
Definition example_entity : SiemensRDF302 := fst (__init__ "hall" example_host 7).

End Climate.


(** * Properties *)

(** ** Laws of the interpreter *)

Section Interp.

Context (O : Oracle).

Lemma interp_bind {A B} (p : Prog A) (f : A -> Prog B) (h : list Obs) :
  interp O (bind p f) h =
    match interp O p h with
    | (inl e, tr) => (inl e, tr)
    | (inr a, tr) =>
        let '(r, tr') := interp O (f a) (h ++ tr) in (r, tr ++ tr')
    end.
Proof.
  revert h; induction p as [a|e|X ev k IH]; intros h; simpl.
  - rewrite app_nil_r. by destruct (interp O (f a) h).
  - reflexivity.
  - rewrite IH. destruct (interp O (k (O h X ev)) (h ++ [Ob ev (O h X ev)]))
      as [[e|a] tr]; [done|].
    rewrite <- app_assoc. simpl.
    by destruct (interp O (f a) (h ++ Ob ev (O h X ev) :: tr)).
Qed.

Lemma interp_try_except {A} (p : Prog A) (hd : exn -> Prog A) (h : list Obs) :
  interp O (try_except p hd) h =
    match interp O p h with
    | (inl e, tr) =>
        let '(r, tr') := interp O (hd e) (h ++ tr) in (r, tr ++ tr')
    | (inr a, tr) => (inr a, tr)
    end.
Proof.
  revert h; induction p as [a|e|X ev k IH]; intros h; simpl.
  - reflexivity.
  - rewrite app_nil_r. by destruct (interp O (hd e) h).
  - rewrite IH. destruct (interp O (k (O h X ev)) (h ++ [Ob ev (O h X ev)]))
      as [[e|a] tr]; [|done].
    rewrite <- app_assoc. simpl.
    by destruct (interp O (hd e) (h ++ Ob ev (O h X ev) :: tr)).
Qed.

(** Leaving the lock makes one call, whatever the body did. *)
Lemma interp_finally_release {A} (p : Prog A) (h : list Obs) :
  interp O (finally p (trigger LockRelease)) h =
    (fst (interp O p h), snd (interp O p h) ++ [Ob LockRelease tt]).
Proof.
  revert h; induction p as [a|e|X ev k IH]; intros h; simpl.
  - by destruct (O h unit LockRelease).
  - by destruct (O h unit LockRelease).
  - rewrite IH. by destruct (interp O (k (O h X ev)) (h ++ [Ob ev (O h X ev)])).
Qed.

Lemma interp_with_lock {A} (p : Prog A) (h : list Obs) :
  interp O (with_lock p) h =
    (fst (interp O p (h ++ [Ob LockAcquire tt])),
     Ob LockAcquire tt :: snd (interp O p (h ++ [Ob LockAcquire tt]))
       ++ [Ob LockRelease tt]).
Proof.
  unfold with_lock, trigger. simpl. destruct (O h unit LockAcquire).
  by rewrite interp_finally_release.
Qed.

End Interp.

Lemma skeleton_app (tr1 tr2 : list Obs) :
  skeleton (tr1 ++ tr2) = skeleton tr1 ++ skeleton tr2.
Proof.
  induction tr1 as [|ob tr1 IH]; simpl; [done|].
  destruct (step_of ob); simpl; by rewrite IH.
Qed.

Lemma count_attempts_app (s1 s2 : list Step) :
  count_attempts (s1 ++ s2) = (count_attempts s1 + count_attempts s2)%nat.
Proof.
  induction s1 as [|[|d] s1 IH]; simpl; [done| |done]. by rewrite IH.
Qed.

Lemma attempts_app (tr1 tr2 : list Obs) :
  attempts (tr1 ++ tr2) = (attempts tr1 + attempts tr2)%nat.
Proof. unfold attempts. by rewrite skeleton_app, count_attempts_app. Qed.

Lemma error_logs_app (tr1 tr2 : list Obs) :
  error_logs (tr1 ++ tr2) = (error_logs tr1 + error_logs tr2)%nat.
Proof. induction tr1 as [|ob tr1 IH]; simpl; [done|]. rewrite IH. lia. Qed.

Lemma count_attempts_spaced (n : nat) (d : Q) : count_attempts (spaced n d) = n.
Proof.
  induction n as [|[|n] IH]; [done..|].
  change (spaced (S (S n)) d) with (Attempt :: Wait d :: spaced (S n) d).
  cbn [count_attempts]. by rewrite IH.
Qed.

Lemma attempt_not_error_log (ob : Obs) :
  step_of ob = Some Attempt -> is_error_log ob = false.
Proof. destruct ob as [X ev x]. by destruct ev. Qed.

Lemma async_read_holding_registers_retry self unit_id address count :
  async_read_holding_registers self unit_id address count =
  retry_read self (ReadHoldingRegisters address count unit_id) registers count address
    "Modbus error reading holding registers at address %s, retrying"
    "Modbus error reading holding registers at address %s, retries exhausted".
Proof. reflexivity. Qed.

Lemma async_read_input_registers_retry self unit_id address count :
  async_read_input_registers self unit_id address count =
  retry_read self (ReadInputRegisters address count unit_id) registers count address
    "Modbus error reading input registers at address %s, retrying"
    "Modbus error reading input registers at address %s, retries exhausted".
Proof. reflexivity. Qed.

Lemma async_read_coils_retry self unit_id address count :
  async_read_coils self unit_id address count =
  retry_read self (ReadCoils address count unit_id) bits count address
    "Modbus error reading coils at address %s, retrying"
    "Modbus error reading coils at address %s, retries exhausted".
Proof. reflexivity. Qed.

Lemma interp_async_connect_ok (O : Oracle) (h : list Obs) :
  connect_ok O ->
  exists tr, interp O async_connect h = (inr tt, tr)
             /\ skeleton tr = [] /\ error_logs tr = 0%nat.
Proof.
  intros Hc. unfold async_connect, trigger, call. simpl.
  destruct (O h bool ClientConnected); simpl.
  - eexists; split; [reflexivity|done].
  - destruct (Hc (h ++ [Ob ClientConnected false])) as [b ->]. simpl.
    eexists; split; [reflexivity|done].
Qed.

Section RetryLoop.

Context {V : Type} (O : Oracle) (self : ModbusHost).
Context (ev : Event (exn + Response)) (values : Response -> list V).
Context (count address : Z) (retry_msg exhausted_msg : string).

Hypothesis ev_wire : forall x, step_of (Ob ev x) = Some Attempt.
Hypothesis Hconnect : connect_ok O.

Let body := retry_body self ev values count address retry_msg.
Let after : Prog (option (list V)) :=
  trigger (Log ERROR exhausted_msg address) ;; Ret None.
Let d := _retry_delay self.
Let n := Z.to_nat (_max_retry_count self).

Lemma interp_body_rejected (h : list Obs) (attempt : Z) :
  rejects_at O ev values count h 0 ->
  exists tr,
    interp O (body attempt) h = (inr None, tr)
    /\ skeleton tr =
         Attempt :: (if attempt <? _max_retry_count self - 1 then [Wait d] else [])
    /\ error_logs tr = 0%nat.
Proof using ev_wire Hconnect.
  intros Hrej. unfold body, retry_body. rewrite interp_bind.
  destruct (interp_async_connect_ok O h Hconnect) as (trc & -> & Hsk & Hel).
  destruct (Hrej trc) as (r & Hr & Hbad).
  { unfold attempts. by rewrite Hsk. }
  unfold call. cbn [bind interp]. rewrite Hr. cbn [bind].
  assert (negb (isError r) && (len (values r) =? count) = false) as ->.
  { destruct Hbad as [->|Hne]; [done|].
    apply andb_false_intro2. by apply Z.eqb_neq. }
  destruct (attempt <? _max_retry_count self - 1); unfold trigger; simpl;
    repeat match goal with |- context [O ?hh unit ?e] => destruct (O hh unit e) end;
    (eexists; split; [reflexivity|]);
    rewrite !skeleton_app, !error_logs_app, Hsk, Hel;
    cbn [skeleton error_logs app];
    rewrite ev_wire, (attempt_not_error_log _ (ev_wire _)); simpl; done.
Qed.

Lemma interp_body_accepted (h : list Obs) (attempt : Z) (r : Response) :
  accepts_at O ev values count h 0 r ->
  exists tr,
    interp O (body attempt) h = (inr (Some (Some (values r))), tr)
    /\ skeleton tr = [Attempt]
    /\ error_logs tr = 0%nat.
Proof using ev_wire Hconnect.
  intros (Hr & Hne & Hlen). unfold body, retry_body. rewrite interp_bind.
  destruct (interp_async_connect_ok O h Hconnect) as (trc & -> & Hsk & Hel).
  unfold call. cbn [bind interp]. rewrite Hr.
  2:{ unfold attempts. by rewrite Hsk. }
  cbn [bind]. rewrite Hne, Hlen, Z.eqb_refl. simpl.
  eexists; split; [reflexivity|].
  rewrite !skeleton_app, !error_logs_app, Hsk, Hel. cbn [skeleton error_logs app].
  rewrite ev_wire, (attempt_not_error_log _ (ev_wire _)). done.
Qed.

(** The loop from iteration [i] on, [m] iterations being left, when every one
    of them is rejected. *)
Lemma interp_loop_exhausted (m i : nat) (h : list Obs) :
  (i + m = n)%nat ->
  (forall j, (j < m)%nat -> rejects_at O ev values count h j) ->
  exists tr,
    interp O (for_in (map Z.of_nat (seq i m)) body after) h = (inr None, tr)
    /\ skeleton tr = spaced m d
    /\ error_logs tr = 1%nat.
Proof using ev_wire Hconnect.
  revert i h. induction m as [|m IH]; intros i h Him Hrej.
  - unfold after, trigger. simpl. destruct (O h unit _).
    eexists; split; [reflexivity|done].
  - cbn [seq map for_in]. rewrite interp_bind.
    destruct (interp_body_rejected h (Z.of_nat i)) as (tr1 & -> & Hsk1 & Hel1).
    { apply Hrej. lia. }
    assert (attempts tr1 = 1%nat) as Hatt.
    { unfold attempts. rewrite Hsk1. by destruct (_ <? _). }
    destruct (IH (S i) (h ++ tr1)) as (tr2 & -> & Hsk2 & Hel2); [lia| |].
    { intros j Hj tr Htr. rewrite <- app_assoc. apply (Hrej (S j)); [lia|].
      rewrite attempts_app, Hatt, Htr. lia. }
    eexists; split; [reflexivity|].
    rewrite skeleton_app, error_logs_app, Hsk1, Hsk2, Hel1, Hel2.
    split; [|done].
    assert (Z.of_nat n = _max_retry_count self) as Hn by (unfold n; lia).
    destruct m as [|m].
    + assert ((Z.of_nat i <? _max_retry_count self - 1) = false) as ->
        by (apply Z.ltb_ge; lia).
      done.
    + assert ((Z.of_nat i <? _max_retry_count self - 1) = true) as ->
        by (apply Z.ltb_lt; lia).
      done.
Qed.

(** The loop when the first [j] of the iterations left are rejected and the
    next one is accepted. *)
Lemma interp_loop_accepted (j m i : nat) (h : list Obs) (r : Response) :
  (i + m = n)%nat ->
  (j < m)%nat ->
  (forall j', (j' < j)%nat -> rejects_at O ev values count h j') ->
  accepts_at O ev values count h j r ->
  exists tr,
    interp O (for_in (map Z.of_nat (seq i m)) body after) h
      = (inr (Some (values r)), tr)
    /\ skeleton tr = spaced (S j) d
    /\ error_logs tr = 0%nat.
Proof using ev_wire Hconnect.
  revert m i h. induction j as [|j IH]; intros m i h Him Hjm Hrej Hacc.
  - destruct m as [|m]; [lia|]. cbn [seq map for_in]. rewrite interp_bind.
    destruct (interp_body_accepted h (Z.of_nat i) r Hacc) as (tr1 & -> & Hsk1 & Hel1).
    simpl. eexists; split; [reflexivity|]. by rewrite app_nil_r.
  - destruct m as [|m]; [lia|]. cbn [seq map for_in]. rewrite interp_bind.
    destruct (interp_body_rejected h (Z.of_nat i)) as (tr1 & -> & Hsk1 & Hel1).
    { apply Hrej. lia. }
    assert ((Z.of_nat i <? _max_retry_count self - 1) = true) as Hlt.
    { apply Z.ltb_lt. unfold n in Him. lia. }
    rewrite Hlt in Hsk1.
    assert (attempts tr1 = 1%nat) as Hatt.
    { unfold attempts. by rewrite Hsk1. }
    destruct (IH m (S i) (h ++ tr1)) as (tr2 & -> & Hsk2 & Hel2); [lia|lia| | |].
    { intros j' Hj' tr Htr. rewrite <- app_assoc. apply (Hrej (S j')); [lia|].
      rewrite attempts_app, Hatt, Htr. lia. }
    { destruct Hacc as (Hr & Hne & Hlen). split; [|done].
      intros tr Htr. rewrite <- app_assoc. apply Hr.
      rewrite attempts_app, Hatt, Htr. lia. }
    eexists; split; [reflexivity|].
    rewrite skeleton_app, error_logs_app, Hsk1, Hsk2, Hel1, Hel2. done.
Qed.

(** All [max_retries] attempts rejected. *)
Lemma retry_read_exhausted (h : list Obs) :
  (forall j, (j < n)%nat -> rejects_at O ev values count h j) ->
  exists tr,
    interp O (retry_read self ev values count address retry_msg exhausted_msg) h
      = (inr None, tr)
    /\ skeleton tr = spaced n d
    /\ error_logs tr = 1%nat.
Proof using ev_wire Hconnect.
  intros Hrej. unfold retry_read. rewrite interp_with_lock.
  destruct (interp_loop_exhausted n 0 (h ++ [Ob LockAcquire tt]))
    as (tr & Htr & Hsk & Hel); [lia| |].
  { intros j Hj tr Htr. rewrite <- app_assoc. by apply (Hrej j Hj). }
  unfold range. fold n. fold body. fold after. rewrite Htr. simpl.
  eexists; split; [reflexivity|].
  cbn [skeleton error_logs step_of is_error_log].
  rewrite skeleton_app, error_logs_app, Hsk, Hel. simpl.
  by rewrite app_nil_r.
Qed.

(** The first [j] attempts rejected, the next one accepted. *)
Lemma retry_read_accepted (h : list Obs) (j : nat) (r : Response) :
  (j < n)%nat ->
  (forall j', (j' < j)%nat -> rejects_at O ev values count h j') ->
  accepts_at O ev values count h j r ->
  exists tr,
    interp O (retry_read self ev values count address retry_msg exhausted_msg) h
      = (inr (Some (values r)), tr)
    /\ skeleton tr = spaced (S j) d
    /\ error_logs tr = 0%nat.
Proof using ev_wire Hconnect.
  intros Hj Hrej Hacc. unfold retry_read. rewrite interp_with_lock.
  destruct (interp_loop_accepted j n 0 (h ++ [Ob LockAcquire tt]) r)
    as (tr & Htr & Hsk & Hel); [lia|lia| | |].
  { intros j' Hj' tr Htr. rewrite <- app_assoc. by apply (Hrej j' Hj'). }
  { destruct Hacc as (Hr & Hne & Hlen). split; [|done].
    intros tr Htr. rewrite <- app_assoc. by apply Hr. }
  unfold range. fold n. fold body. fold after. rewrite Htr. simpl.
  eexists; split; [reflexivity|].
  cbn [skeleton error_logs step_of is_error_log].
  rewrite skeleton_app, error_logs_app, Hsk, Hel. simpl.
  by rewrite app_nil_r.
Qed.

End RetryLoop.
(** ** The single-coil read and the writes *)

Lemma interp_async_read_coil (O : Oracle) (self : ModbusHost)
    (unit_id address : Z) (h : list Obs) (r : Response) :
  connect_ok O ->
  (forall tr, attempts tr = 0%nat ->
     O (h ++ tr) _ (ReadCoils address 1 unit_id) = inr r) ->
  exists tr,
    interp O (async_read_coil self unit_id address) h =
      (if isError r then inr None
       else match bits r with b :: _ => inr (Some b) | [] => inl IndexError end,
       tr)
    /\ skeleton tr = [Attempt].
Proof.
  intros Hc Hr. unfold async_read_coil. rewrite interp_with_lock, interp_bind.
  destruct (interp_async_connect_ok O (h ++ [Ob LockAcquire tt]) Hc)
    as (trc & -> & Hsk & _).
  unfold call. cbn [bind interp]. rewrite <- app_assoc, Hr.
  2:{ rewrite attempts_app. unfold attempts. by rewrite Hsk. }
  cbn [bind]. unfold bits_0.
  destruct (isError r); [|destruct (bits r) as [|b rest]]; simpl;
    (eexists; split; [reflexivity|]);
    cbn [skeleton step_of]; rewrite !skeleton_app, Hsk; reflexivity.
Qed.

(** The body of a retried read hands out values only when there are [count]
    of them, whatever the transport does. *)
Lemma retry_body_count {V} (O : Oracle) (self : ModbusHost)
    (ev : Event (exn + Response)) (values : Response -> list V)
    (count address : Z) (msg : string) (attempt : Z) (h : list Obs)
    (ov : option (list V)) :
  fst (interp O (retry_body self ev values count address msg attempt) h)
    = inr (Some ov) ->
  exists vs, ov = Some vs /\ len vs = count.
Proof.
  unfold retry_body. rewrite interp_bind.
  destruct (interp O async_connect h) as [[e|[]] trc]; [done|].
  unfold call. cbn [bind interp].
  destruct (O (h ++ trc) _ ev) as [e|r]; [done|]. cbn [bind].
  destruct (isError r); simpl.
  - destruct (attempt <? _); simpl; done.
  - destruct (len (values r) =? count) eqn:Hlen.
    + intros [= <-]. exists (values r). split; [done|]. by apply Z.eqb_eq.
    + destruct (attempt <? _); simpl; done.
Qed.

Lemma retry_read_count {V} (O : Oracle) (self : ModbusHost)
    (ev : Event (exn + Response)) (values : Response -> list V)
    (count address : Z) (msg1 msg2 : string) (h : list Obs) (vs : list V) :
  fst (interp O (retry_read self ev values count address msg1 msg2) h)
    = inr (Some vs) ->
  len vs = count.
Proof.
  unfold retry_read. rewrite interp_with_lock. cbn [fst].
  generalize (h ++ [Ob LockAcquire tt]). generalize (range (_max_retry_count self)).
  intros xs. induction xs as [|x xs IH]; intros hh.
  - unfold trigger. simpl. done.
  - cbn [for_in]. rewrite interp_bind.
    pose proof (retry_body_count O self ev values count address msg1 x hh) as Hb.
    destruct (interp O (retry_body self ev values count address msg1 x) hh)
      as [[e|[ov|]] tr]; [done| |].
    + destruct (Hb ov eq_refl) as (vs' & -> & Hlen). simpl. by intros [= <-].
    + specialize (IH (hh ++ tr)).
      destruct (interp O (for_in xs _ _) (hh ++ tr)). exact IH.
Qed.

Lemma async_write_register_once self unit_id address value :
  async_write_register self unit_id address value =
  write_once (WriteRegister address value unit_id) address
    "Modbus error writing register at address %s, retries exhausted"
    "Modbus I/O error writing register at address %s: %s"
    "Modbus error writing register at address %s: %s"
    "Unknown error writing register at address %s: %s".
Proof. reflexivity. Qed.

Lemma async_write_coil_once self unit_id address value :
  async_write_coil self unit_id address value =
  write_once (WriteCoil address value unit_id) address
    "Modbus error writing coil at address %s"
    "Modbus I/O error writing coil at address %s: %s"
    "Modbus error writing coil at address %s: %s"
    "Unknown error writing coil at address %s: %s".
Proof. reflexivity. Qed.

Ltac ask O :=
  repeat match goal with
         | |- context [O ?hh ?X ?e] => destruct (O hh X e); simpl
         end.

(** Every path through a write, whatever the transport does. *)
Lemma write_once_paths (O : Oracle) (ev : Event (exn + Response)) (address : Z)
    (m1 m2 m3 m4 : string) (h : list Obs) :
  (forall x, step_of (Ob ev x) = Some Attempt) ->
  (forall x, raised (Ob ev x) = match x with inl e => Some e | inr _ => None end) ->
  (forall x, responded (Ob ev x) = match x with inl _ => None | inr r => Some r end) ->
  let run := interp O (write_once ev address m1 m2 m3 m4) h in
  (attempts (snd run) <= 1)%nat
  /\ (forall d, ~ In (Wait d) (skeleton (snd run)))
  /\ (forall e, fst run = inl e -> isinstance_Exception e = false)
  /\ (forall e, raised_in (snd run) e -> isinstance_Exception e = true ->
        fst run = inr (Some false))
  /\ (forall r, responded_in (snd run) r ->
        attempts (snd run) = 1%nat
        /\ fst run = inr (if isError r then None else Some true)).
Proof.
  intros Hwire Hraised Hresp. cbv zeta. unfold write_once.
  specialize (Hwire (inl ModbusException)).
  cbn [step_of raised responded] in Hwire, Hraised, Hresp.
  rewrite interp_with_lock, interp_try_except, interp_bind.
  unfold async_connect, trigger, call, raised_in, responded_in, attempts.
  cbn [interp bind].
  destruct (O _ bool ClientConnected); cbn [negb interp bind].
  2: destruct (O _ _ ClientConnect) as [e|b]; cbn [interp bind app].
  all: try (destruct (O _ _ ev) as [e|[[|] rs bs]]; cbn [interp bind app negb isError]).
  all: try destruct e; cbn [interp bind app isinstance_ModbusIOException
         isinstance_ModbusException isinstance_Exception fst snd].
  all: ask O.
  all: cbn [skeleton map step_of raised responded fst snd app];
    rewrite ?Hwire, ?Hraised, ?Hresp; cbn [count_attempts In].
  all: clear Hwire Hraised Hresp.
  all: repeat split; try lia; unfold not; intros; simpl in *;
    repeat match goal with H : _ \/ _ |- _ => destruct H end;
    simplify_eq/=; done.
Qed.

Lemma Rejected_values (op : ReadOp) (count : Z) (r : Response) :
  Rejected op count r ->
  match op with
  | HoldingRegisters | InputRegisters =>
      isError r = true \/ len (registers r) <> count
  | Coils => isError r = true \/ len (bits r) <> count
  end.
Proof. by destruct op. Qed.

(** C1. For each of the three multi-value reads, when [max_retries >= 1] and
    every one of the [max_retries] attempts is answered by a rejected response,
    the read returns [None] after exactly [max_retries] wire attempts; between
    two consecutive attempts it waits once, each time for the same
    [retry_delay], and it logs one error. *)
Theorem read_retries_exhausted (O : Oracle) (op : ReadOp) (self : ModbusHost)
    (unit_id address count : Z) (h : list Obs) :
  1 <= _max_retry_count self ->
  connect_ok O ->
  (forall j, (j < Z.to_nat (_max_retry_count self))%nat ->
     nth_rejected O op unit_id address count h j) ->
  read_returns O op self unit_id address count h None None
    (fun tr =>
       Z.of_nat (attempts tr) = _max_retry_count self
       /\ skeleton tr = spaced (Z.to_nat (_max_retry_count self)) (_retry_delay self)
       /\ error_logs tr = 1%nat).
Proof.
  intros Hmax Hc Hrej.
  assert (forall tr,
    skeleton tr = spaced (Z.to_nat (_max_retry_count self)) (_retry_delay self) ->
    Z.of_nat (attempts tr) = _max_retry_count self) as Hcount.
  { intros tr Hsk. unfold attempts. rewrite Hsk, count_attempts_spaced. lia. }
  assert (forall (V : Type) (ev : Event (exn + Response)) (values : Response -> list V)
            (m1 m2 : string),
    (forall x, step_of (Ob ev x) = Some Attempt) ->
    (forall j, (j < Z.to_nat (_max_retry_count self))%nat ->
       rejects_at O ev values count h j) ->
    exists tr,
      interp O (retry_read self ev values count address m1 m2) h = (inr None, tr)
      /\ Z.of_nat (attempts tr) = _max_retry_count self
      /\ skeleton tr = spaced (Z.to_nat (_max_retry_count self)) (_retry_delay self)
      /\ error_logs tr = 1%nat) as Hgen.
  { intros V ev values m1 m2 Hw Hr.
    destruct (retry_read_exhausted O self ev values count address m1 m2 Hw Hc h Hr)
      as (tr & Htr & Hsk & Hel).
    exists tr. split; [exact Htr|]. split; [by apply Hcount|by split]. }
  assert (forall j, (j < Z.to_nat (_max_retry_count self))%nat ->
    forall tr, attempts tr = j ->
    exists r, O (h ++ tr) _ (read_call op address count unit_id) = inr r
              /\ match op with
                 | HoldingRegisters | InputRegisters =>
                     isError r = true \/ len (registers r) <> count
                 | Coils => isError r = true \/ len (bits r) <> count
                 end) as Hrej'.
  { intros j Hj tr Htr. destruct (Hrej j Hj tr Htr) as (r & Hr & Hbad).
    exists r. split; [exact Hr|]. by apply Rejected_values. }
  destruct op; unfold read_returns.
  - rewrite async_read_holding_registers_retry. by apply Hgen.
  - rewrite async_read_input_registers_retry. by apply Hgen.
  - rewrite async_read_coils_retry. by apply Hgen.
Qed.

Lemma read_retries_exhausted_witness :
  read_returns (scripted []) InputRegisters example_host 1 8 1 [] None None
    (fun tr =>
       Z.of_nat (attempts tr) = 3
       /\ skeleton tr = [Attempt; Wait (1 # 2); Attempt; Wait (1 # 2); Attempt]
       /\ error_logs tr = 1%nat).
Proof.
  apply (read_retries_exhausted (scripted []) InputRegisters example_host 1 8 1 []).
  - by cbv.
  - intros h. unfold connect_ok. by exists true.
  - intros j _ tr _. exists error_response. split.
    + simpl. by destruct (attempts tr).
    + by left.
Defined.

(** C2. For each of the three multi-value reads and every [k] with
    [1 <= k <= max_retries]: when the first [k-1] attempts are answered by
    rejected responses and the [k]-th by a response with no error flag and
    exactly [count] values, the read returns the values of that response and
    makes exactly [k] wire attempts (with [k-1] waits between them and no error
    record). *)
Theorem read_accepted_at_kth (O : Oracle) (op : ReadOp) (self : ModbusHost)
    (unit_id address count : Z) (h : list Obs) (k : nat) (r : Response) :
  (1 <= k)%nat ->
  Z.of_nat k <= _max_retry_count self ->
  connect_ok O ->
  (forall j, (j < k - 1)%nat -> nth_rejected O op unit_id address count h j) ->
  nth_answer O op unit_id address count h (k - 1) r ->
  Accepted op count r ->
  read_returns O op self unit_id address count h
    (Some (registers r)) (Some (bits r))
    (fun tr =>
       attempts tr = k
       /\ skeleton tr = spaced k (_retry_delay self)
       /\ error_logs tr = 0%nat).
Proof.
  intros Hk Hmax Hc Hrej Hans [Hne Hlen].
  assert (forall tr, skeleton tr = spaced (S (k - 1)) (_retry_delay self) ->
    attempts tr = k /\ skeleton tr = spaced k (_retry_delay self)) as Hcount.
  { intros tr Hsk. unfold attempts. rewrite Hsk, count_attempts_spaced.
    replace (S (k - 1)) with k by lia. done. }
  assert (forall (V : Type) (ev : Event (exn + Response)) (values : Response -> list V)
            (m1 m2 : string),
    (forall x, step_of (Ob ev x) = Some Attempt) ->
    (forall j, (j < k - 1)%nat -> rejects_at O ev values count h j) ->
    accepts_at O ev values count h (k - 1) r ->
    exists tr,
      interp O (retry_read self ev values count address m1 m2) h
        = (inr (Some (values r)), tr)
      /\ attempts tr = k
      /\ skeleton tr = spaced k (_retry_delay self)
      /\ error_logs tr = 0%nat) as Hgen.
  { intros V ev values m1 m2 Hw Hr Ha.
    destruct (retry_read_accepted O self ev values count address m1 m2 Hw Hc h
                (k - 1)%nat r) as (tr & Htr & Hsk & Hel); [lia|done|done|].
    exists tr. split; [exact Htr|]. destruct (Hcount tr Hsk). by repeat split. }
  assert (forall j, (j < k - 1)%nat ->
    forall tr, attempts tr = j ->
    exists r, O (h ++ tr) _ (read_call op address count unit_id) = inr r
              /\ match op with
                 | HoldingRegisters | InputRegisters =>
                     isError r = true \/ len (registers r) <> count
                 | Coils => isError r = true \/ len (bits r) <> count
                 end) as Hrej'.
  { intros j Hj tr Htr. destruct (Hrej j Hj tr Htr) as (r' & Hr & Hbad).
    exists r'. split; [exact Hr|]. by apply Rejected_values. }
  destruct op; unfold read_returns.
  - rewrite async_read_holding_registers_retry. by apply Hgen.
  - rewrite async_read_input_registers_retry. by apply Hgen.
  - rewrite async_read_coils_retry. by apply Hgen.
Qed.

Lemma read_accepted_at_kth_witness :
  read_returns
    (scripted [inr error_response; inr error_response; inr response_42])
    HoldingRegisters (__init__ "10.0.0.5" 502 3 0) 1 4 1 []
    (Some [42]) (Some [])
    (fun tr =>
       attempts tr = 3%nat
       /\ skeleton tr = [Attempt; Wait 0; Attempt; Wait 0; Attempt]
       /\ error_logs tr = 0%nat).
Proof.
  apply (read_accepted_at_kth
           (scripted [inr error_response; inr error_response; inr response_42])
           HoldingRegisters (__init__ "10.0.0.5" 502 3 0) 1 4 1 [] 3 response_42).
  - lia.
  - simpl. lia.
  - intros h. unfold connect_ok. by exists true.
  - intros j Hj tr Htr. exists error_response. split; [|by left].
    simpl in *. rewrite Htr. by destruct j as [|[|j]]; [..|lia].
  - intros tr Htr. simpl in *. by rewrite Htr.
  - by split.
Defined.

Lemma raised_in_app (tr1 tr2 : list Obs) (e : exn) :
  raised_in (tr1 ++ tr2) e <-> raised_in tr1 e \/ raised_in tr2 e.
Proof. unfold raised_in. rewrite map_app. apply in_app_iff. Qed.

Section Propagation.

Context (O : Oracle).

Lemma propagates_bind {A B} (p : Prog A) (f : A -> Prog B) (h : list Obs) :
  propagates (interp O p h) ->
  (forall a hh, propagates (interp O (f a) hh)) ->
  propagates (interp O (bind p f) h).
Proof.
  intros Hp Hf e. rewrite interp_bind. unfold propagates in Hp.
  destruct (interp O p h) as [[e'|a] tr].
  { simpl in *. intros He. by injection (Hp e He) as ->. }
  specialize (Hf a (h ++ tr)). unfold propagates in Hf.
  destruct (interp O (f a) (h ++ tr)) as [r tr']. simpl in *.
  intros [H1|H2]%raised_in_app; [|by apply Hf].
  by specialize (Hp e H1).
Qed.

Lemma propagates_trigger {X} (ev : Event X) (h : list Obs) :
  (forall x, raised (Ob ev x) = None) ->
  propagates (interp O (trigger ev) h).
Proof.
  intros Hq e. unfold trigger, raised_in. cbn [interp fst snd map]. rewrite Hq.
  by intros [?|[]].
Qed.

Lemma propagates_call {X} (ev : Event (exn + X)) (h : list Obs) :
  (forall x, raised (Ob ev x) = match x with inl e => Some e | inr _ => None end) ->
  propagates (interp O (call ev) h).
Proof.
  intros Hq e. unfold call, raised_in. cbn [interp].
  destruct (O h _ ev) as [e'|x] eqn:Hans; cbn [interp fst snd map]; rewrite Hq.
  - intros [[= ->]|[]]. done.
  - by intros [?|[]].
Qed.

Lemma propagates_ret {A} (a : A) (h : list Obs) : propagates (interp O (Ret a) h).
Proof. by intros e []. Qed.

Lemma propagates_raise {A} (e0 : exn) (h : list Obs) :
  propagates (interp O (Raise e0 : Prog A) h).
Proof. by intros e []. Qed.

Lemma propagates_with_lock {A} (p : Prog A) (h : list Obs) :
  (forall hh, propagates (interp O p hh)) ->
  propagates (interp O (with_lock p) h).
Proof.
  intros Hp e. rewrite interp_with_lock. simpl.
  unfold raised_in. simpl. intros [?|Hin]; [done|].
  apply (Hp _ e). unfold raised_in. rewrite map_app in Hin.
  apply in_app_iff in Hin as [?|[?|[]]]; done.
Qed.

Lemma propagates_async_connect (h : list Obs) :
  propagates (interp O async_connect h).
Proof.
  unfold async_connect. apply propagates_bind.
  - by apply propagates_trigger.
  - intros [] hh; cbn [negb]; [apply propagates_ret|].
    apply propagates_bind; [by apply propagates_call; intros []|].
    intros; apply propagates_ret.
Qed.

Lemma propagates_retry_read {V} (self : ModbusHost) (ev : Event (exn + Response))
    (values : Response -> list V) (count address : Z) (m1 m2 : string)
    (h : list Obs) :
  (forall x, raised (Ob ev x) = match x with inl e => Some e | inr _ => None end) ->
  propagates (interp O (retry_read self ev values count address m1 m2) h).
Proof.
  intros Hev. unfold retry_read. apply propagates_with_lock.
  generalize (range (_max_retry_count self)). intros xs.
  induction xs as [|x xs IH]; intros hh; cbn [for_in].
  - apply propagates_bind; [by apply propagates_trigger|].
    intros; apply propagates_ret.
  - apply propagates_bind.
    + unfold retry_body. apply propagates_bind; [apply propagates_async_connect|].
      intros _ h1. apply propagates_bind; [by apply propagates_call|].
      intros r h2. destruct (negb (isError r) && _); [apply propagates_ret|].
      apply propagates_bind; [|intros; apply propagates_ret].
      destruct (x <? _); [|apply propagates_ret].
      apply propagates_bind; [by apply propagates_trigger|].
      intros; by apply propagates_trigger.
    + intros [v|] h1; [apply propagates_ret|apply IH].
Qed.

Lemma propagates_async_read_coil (self : ModbusHost) (unit_id address : Z)
    (h : list Obs) :
  propagates (interp O (async_read_coil self unit_id address) h).
Proof.
  unfold async_read_coil. apply propagates_with_lock. intros hh.
  apply propagates_bind; [apply propagates_async_connect|].
  intros _ h1. apply propagates_bind; [by apply propagates_call; intros []|].
  intros r h2. destruct (negb (isError r)); [|apply propagates_ret].
  apply propagates_bind; [|intros; apply propagates_ret].
  unfold bits_0. destruct (bits r); [apply propagates_raise|apply propagates_ret].
Qed.

End Propagation.

(** C3. A write whose response carries the protocol-level error flag: the
    method logs the error and reaches the end of its body, so its value is
    Python's [None] and not [False] (one wire attempt, no retry). *)
Theorem write_protocol_error_returns_None :
  interp (scripted [inr error_response]) (async_write_register example_host 1 12 250) []
    = (inr None,
       [Ob LockAcquire tt; Ob ClientConnected false; Ob ClientConnect (inr true);
        Ob (WriteRegister 12 250 1) (inr error_response);
        Ob (Log ERROR "Modbus error writing register at address %s, retries exhausted" 12) tt;
        Ob LockRelease tt])
  /\ fst (interp (scripted [inr error_response]) (async_write_coil example_host 1 12 true) [])
     = inr None.
Proof. split; reflexivity. Qed.

(** C4, as the specification states it, fails on the reads: a [ModbusIOException] raised
    by the client during [async_read_holding_registers] reaches the caller. *)
Lemma read_exception_escapes :
  interp (scripted [inl ModbusIOException])
    (async_read_holding_registers example_host 1 4 1) []
  = (inl ModbusIOException,
     [Ob LockAcquire tt; Ob ClientConnected false; Ob ClientConnect (inr true);
      Ob (ReadHoldingRegisters 4 1 1) (inl ModbusIOException);
      Ob LockRelease tt]).
Proof. reflexivity. Qed.

(** C4, amended. No exception deriving from [Exception] escapes a write: when
    the transport raises one, the write returns [False].  A read converts
    nothing: an exception raised by the transport during any of the four reads
    is the outcome of the read. *)
Theorem writes_convert_reads_propagate (O : Oracle) (self : ModbusHost)
    (unit_id address count value : Z) (bit : bool) (h : list Obs) :
  converts (interp O (async_write_register self unit_id address value) h)
  /\ converts (interp O (async_write_coil self unit_id address bit) h)
  /\ propagates (interp O (async_read_holding_registers self unit_id address count) h)
  /\ propagates (interp O (async_read_input_registers self unit_id address count) h)
  /\ propagates (interp O (async_read_coils self unit_id address count) h)
  /\ propagates (interp O (async_read_coil self unit_id address) h).
Proof.
  repeat split.
  - rewrite async_write_register_once. by apply write_once_paths; intros [].
  - rewrite async_write_register_once. by apply write_once_paths; intros [].
  - rewrite async_write_coil_once. by apply write_once_paths; intros [].
  - rewrite async_write_coil_once. by apply write_once_paths; intros [].
  - rewrite async_read_holding_registers_retry.
    by apply propagates_retry_read; intros [].
  - rewrite async_read_input_registers_retry.
    by apply propagates_retry_read; intros [].
  - rewrite async_read_coils_retry. by apply propagates_retry_read; intros [].
  - apply propagates_async_read_coil.
Qed.

(** C6, as the specification states it, fails on a response that carries no error flag
    and no bit: [async_read_coil] gives neither a boolean nor [None], the
    indexing [result.bits[0]] raises. *)
Lemma read_coil_no_bit_raises :
  interp (scripted [inr empty_ok_response]) (async_read_coil example_host 1 0) []
  = (inl IndexError,
     [Ob LockAcquire tt; Ob ClientConnected false; Ob ClientConnect (inr true);
      Ob (ReadCoils 0 1 1) (inr empty_ok_response); Ob LockRelease tt]).
Proof. reflexivity. Qed.

(** C6, amended. [async_read_coil] makes exactly one wire attempt and never
    waits; it returns [None] when the response carries the error flag, and the
    first bit of the response when it carries no error flag and at least one
    bit. *)
Theorem read_coil_single_attempt (O : Oracle) (self : ModbusHost)
    (unit_id address : Z) (h : list Obs) (r : Response) :
  connect_ok O ->
  (forall tr, attempts tr = 0%nat ->
     O (h ++ tr) _ (ReadCoils address 1 unit_id) = inr r) ->
  exists res tr,
    interp O (async_read_coil self unit_id address) h = (res, tr)
    /\ attempts tr = 1%nat
    /\ skeleton tr = [Attempt]
    /\ (isError r = true -> res = inr None)
    /\ (forall b rest, isError r = false -> bits r = b :: rest -> res = inr (Some b)).
Proof.
  intros Hc Hr.
  destruct (interp_async_read_coil O self unit_id address h r Hc Hr) as (tr & Htr & Hsk).
  eexists _, tr. split; [exact Htr|]. split; [unfold attempts; by rewrite Hsk|].
  split; [done|]. split.
  - by intros ->.
  - by intros b rest -> ->.
Qed.

Lemma read_coil_single_attempt_witness :
  exists res tr,
    interp (scripted [inr (response_bit true)]) (async_read_coil example_host 1 0) []
      = (res, tr)
    /\ attempts tr = 1%nat
    /\ skeleton tr = [Attempt]
    /\ (isError (response_bit true) = true -> res = inr None)
    /\ (forall b rest, isError (response_bit true) = false ->
          bits (response_bit true) = b :: rest -> res = inr (Some b)).
Proof.
  apply (read_coil_single_attempt (scripted [inr (response_bit true)])
           example_host 1 0 [] (response_bit true)).
  - intros h. unfold connect_ok. by exists true.
  - intros tr Htr. simpl in *. by rewrite Htr.
Defined.

(** C10. [async_read_coil] checks no quantity: for a response without the
    error flag it returns the first bit whatever the number of bits, and when
    there is no bit the indexing [bits[0]] raises [IndexError].  The three
    retried reads only ever return a sequence of exactly [count] values. *)
Theorem read_coil_unguarded_index (O : Oracle) (self : ModbusHost)
    (unit_id address count : Z) (h : list Obs) (r : Response) :
  connect_ok O ->
  (forall tr, attempts tr = 0%nat ->
     O (h ++ tr) _ (ReadCoils address 1 unit_id) = inr r) ->
  isError r = false ->
  (bits r = [] ->
   fst (interp O (async_read_coil self unit_id address) h) = inl IndexError)
  /\ (forall b rest, bits r = b :: rest ->
        fst (interp O (async_read_coil self unit_id address) h) = inr (Some b))
  /\ (forall vs,
        fst (interp O (async_read_coils self unit_id address count) h) = inr (Some vs) ->
        len vs = count)
  /\ (forall vs,
        fst (interp O (async_read_holding_registers self unit_id address count) h)
          = inr (Some vs) ->
        len vs = count)
  /\ (forall vs,
        fst (interp O (async_read_input_registers self unit_id address count) h)
          = inr (Some vs) ->
        len vs = count).
Proof.
  intros Hc Hr Hok.
  destruct (interp_async_read_coil O self unit_id address h r Hc Hr) as (tr & -> & _).
  rewrite Hok. cbn [fst]. repeat split.
  - by intros ->.
  - by intros b rest ->.
  - intros vs. rewrite async_read_coils_retry. apply retry_read_count.
  - intros vs. rewrite async_read_holding_registers_retry. apply retry_read_count.
  - intros vs. rewrite async_read_input_registers_retry. apply retry_read_count.
Qed.

Lemma read_coil_unguarded_index_witness :
  fst (interp (scripted [inr empty_ok_response]) (async_read_coil example_host 1 0) [])
    = inl IndexError
  /\ fst (interp (scripted [inr empty_ok_response]) (async_read_coils example_host 1 0 1) [])
     = inr None.
Proof.
  split; [|reflexivity].
  apply (read_coil_unguarded_index (scripted [inr empty_ok_response])
           example_host 1 0 1 [] empty_ok_response).
  - intros h. unfold connect_ok. by exists true.
  - intros tr Htr. simpl in *. by rewrite Htr.
  - reflexivity.
  - reflexivity.
Defined.

(** ** Connecting and disconnecting *)

Lemma connected_after_app (h1 h2 : list Obs) (c : bool) :
  connected_after (h1 ++ h2) c = connected_after h2 (connected_after h1 c).
Proof.
  revert c. induction h1 as [|[X ev x] h1 IH]; intros c; [done|].
  simpl. by destruct ev.
Qed.

Lemma scripted_laws (script : list (exn + Response)) : transport_laws (scripted script).
Proof.
  split; intros h; simpl; rewrite ?connected_after_app; done.
Qed.

Section Connection.

Context (O : Oracle) (laws : transport_laws O).

Lemma interp_connect_up (h : list Obs) :
  O h _ ClientConnected = true ->
  interp O async_connect h = (inr tt, [Ob ClientConnected true]).
Proof. intros Hc. unfold async_connect, trigger. simpl. by rewrite Hc. Qed.

Lemma interp_connect_down (h : list Obs) :
  O h _ ClientConnected = false ->
  interp O async_connect h
  = (inr tt, [Ob ClientConnected false; Ob ClientConnect (inr true)]).
Proof using laws.
  intros Hc. unfold async_connect, trigger, call. simpl. rewrite Hc. simpl.
  by rewrite (proj1 (connect_up O laws _)).
Qed.

Lemma interp_disconnect_down (h : list Obs) :
  O h _ ClientConnected = false ->
  interp O async_disconnect h = (inr tt, [Ob ClientConnected false]).
Proof. intros Hc. unfold async_disconnect, trigger. simpl. by rewrite Hc. Qed.

Lemma interp_disconnect_up (h : list Obs) :
  O h _ ClientConnected = true ->
  interp O async_disconnect h
  = (inr tt, [Ob ClientConnected true; Ob ClientClose (inr tt)]).
Proof using laws.
  intros Hc. unfold async_disconnect, trigger, call. simpl. rewrite Hc. simpl.
  by rewrite (proj1 (close_down O laws _)).
Qed.

Lemma probe_true (h : list Obs) :
  O h _ ClientConnected = true ->
  O (h ++ [Ob ClientConnected true]) _ ClientConnected = true.
Proof using laws.
  intros Hc. pose proof (probe_stable O laws h) as Hp. by rewrite Hc in Hp.
Qed.

Lemma probe_false (h : list Obs) :
  O h _ ClientConnected = false ->
  O (h ++ [Ob ClientConnected false]) _ ClientConnected = false.
Proof using laws.
  intros Hc. pose proof (probe_stable O laws h) as Hp. by rewrite Hc in Hp.
Qed.

Lemma connected_after_connect (h : list Obs) :
  O (h ++ snd (interp O async_connect h)) _ ClientConnected = true.
Proof using laws.
  destruct (O h _ ClientConnected) eqn:Hc.
  - rewrite (interp_connect_up h Hc). by apply probe_true.
  - rewrite (interp_connect_down h Hc). cbn [snd].
    change [Ob ClientConnected false; Ob ClientConnect (inr true)]
      with ([Ob ClientConnected false] ++ [Ob ClientConnect (inr true)]).
    rewrite app_assoc. apply (connect_up O laws).
Qed.

Lemma disconnected_after_disconnect (h : list Obs) :
  O (h ++ snd (interp O async_disconnect h)) _ ClientConnected = false.
Proof using laws.
  destruct (O h _ ClientConnected) eqn:Hc.
  - rewrite (interp_disconnect_up h Hc). cbn [snd].
    change [Ob ClientConnected true; Ob ClientClose (inr tt)]
      with ([Ob ClientConnected true] ++ [Ob ClientClose (inr tt)]).
    rewrite app_assoc. apply (close_down O laws).
  - rewrite (interp_disconnect_down h Hc). by apply probe_false.
Qed.

Lemma interp_connect_twice (h : list Obs) :
  interp O (async_connect ;; async_connect) h
  = (inr tt, snd (interp O async_connect h) ++ [Ob ClientConnected true]).
Proof using laws.
  rewrite interp_bind.
  pose proof (connected_after_connect h) as Hup.
  destruct (interp O async_connect h) as [[e|[]] tr] eqn:Hrun.
  - destruct (O h _ ClientConnected) eqn:Hc.
    + by rewrite (interp_connect_up h Hc) in Hrun.
    + by rewrite (interp_connect_down h Hc) in Hrun.
  - cbn [snd] in *. by rewrite (interp_connect_up _ Hup).
Qed.

Lemma interp_disconnect_twice (h : list Obs) :
  interp O (async_disconnect ;; async_disconnect) h
  = (inr tt, snd (interp O async_disconnect h) ++ [Ob ClientConnected false]).
Proof using laws.
  rewrite interp_bind.
  pose proof (disconnected_after_disconnect h) as Hdown.
  destruct (interp O async_disconnect h) as [[e|[]] tr] eqn:Hrun.
  - destruct (O h _ ClientConnected) eqn:Hc.
    + by rewrite (interp_disconnect_up h Hc) in Hrun.
    + by rewrite (interp_disconnect_down h Hc) in Hrun.
  - cbn [snd] in *. by rewrite (interp_disconnect_down _ Hdown).
Qed.

End Connection.

(** C8. On a transport where [connect()] establishes the connection and
    [close()] closes it: [async_connect] calls nothing but the [connected]
    probe when the transport is connected, and otherwise calls [connect()]
    once; [async_disconnect] calls nothing but the probe when the transport is
    disconnected, and otherwise calls [close()] once; after [async_connect] the
    transport is connected, after [async_disconnect] it is not; a second call
    in a row only probes, and leaves the state of the first. *)
Theorem connect_disconnect_idempotent (O : Oracle) (h : list Obs) :
  transport_laws O ->
  let connected := fun h => O h _ ClientConnected in
  let after := fun (p : Prog unit) => h ++ snd (interp O p h) in
  (connected h = true ->
   interp O async_connect h = (inr tt, [Ob ClientConnected true]))
  /\ (connected h = false ->
      interp O async_connect h
      = (inr tt, [Ob ClientConnected false; Ob ClientConnect (inr true)]))
  /\ connected (after async_connect) = true
  /\ (connected h = false ->
      interp O async_disconnect h = (inr tt, [Ob ClientConnected false]))
  /\ (connected h = true ->
      interp O async_disconnect h
      = (inr tt, [Ob ClientConnected true; Ob ClientClose (inr tt)]))
  /\ connected (after async_disconnect) = false
  /\ interp O (async_connect ;; async_connect) h
     = (inr tt, snd (interp O async_connect h) ++ [Ob ClientConnected true])
  /\ connected (after (async_connect ;; async_connect))
     = connected (after async_connect)
  /\ interp O (async_disconnect ;; async_disconnect) h
     = (inr tt, snd (interp O async_disconnect h) ++ [Ob ClientConnected false])
  /\ connected (after (async_disconnect ;; async_disconnect))
     = connected (after async_disconnect).
Proof.
  intros laws connected after. subst connected after. cbv beta.
  split; [by apply interp_connect_up|].
  split; [by apply interp_connect_down|].
  split; [by apply connected_after_connect|].
  split; [by apply interp_disconnect_down|].
  split; [by apply interp_disconnect_up|].
  split; [by apply disconnected_after_disconnect|].
  split; [by apply interp_connect_twice|].
  split.
  { rewrite (interp_connect_twice O laws h). cbn [snd]. rewrite app_assoc.
    rewrite (connected_after_connect O laws h).
    apply (probe_true O laws). by apply connected_after_connect. }
  split; [by apply interp_disconnect_twice|].
  rewrite (interp_disconnect_twice O laws h). cbn [snd]. rewrite app_assoc.
  rewrite (disconnected_after_disconnect O laws h).
  apply (probe_false O laws). by apply disconnected_after_disconnect.
Qed.

Lemma connect_disconnect_idempotent_witness :
  interp (scripted []) (async_connect ;; async_connect) []
  = (inr tt, [Ob ClientConnected false; Ob ClientConnect (inr true);
              Ob ClientConnected true])
  /\ interp (scripted []) (async_disconnect ;; async_disconnect)
       [Ob ClientConnect (inr true)]
     = (inr tt, [Ob ClientConnected true; Ob ClientClose (inr tt);
                 Ob ClientConnected false]).
Proof.
  split.
  - apply (connect_disconnect_idempotent (scripted []) [] (scripted_laws [])).
  - apply (connect_disconnect_idempotent (scripted []) [Ob ClientConnect (inr true)]
             (scripted_laws [])).
Defined.
(** ** The registry *)

Ltac ha_unfold :=
  unfold async_setup_entry, async_unload_entry,
    call_add_subscriber, call_remove_subscriber, call_get_subscriber_count,
    domain_contains, domain_getitem, domain_setitem, domain_delitem,
    entry_setitem, entry_delitem, new_object, load, store, create_task, await,
    mbind, mret, HA_bind, HA_ret.

Ltac ha_run :=
  repeat (progress (cbn -[await_async_disconnect];
                    rewrite ?lookup_insert_eq, ?insert_insert_eq)).

Lemma fresh_object_None (s : Hass) : objects s !! fresh (dom (objects s)) = None.
Proof. apply not_elem_of_dom, is_fresh. Qed.

Lemma disconnect_returns (O : Oracle) (h : list Obs) :
  close_ok O -> fst (interp O async_disconnect h) = inr tt.
Proof.
  intros Hc. unfold async_disconnect, trigger, call. simpl.
  destruct (O h bool ClientConnected); simpl; [|done].
  by destruct (Hc (h ++ [Ob ClientConnected true])) as [[] ->].
Qed.

(** What [async_setup_entry] does to the object store and to the registry. *)
Lemma setup_fields (s : Hass) (entry : ConfigEntry) :
  let s' := snd (async_setup_entry entry (inr tt) s) in
  match domain_data s !! host_key entry with
  | None =>
      objects s'
      = <[fresh (dom (objects s)) :=
            add_subscriber
              (__init__ (CONF_HOST entry) (CONF_PORT entry)
                 default_max_retries default_retry_delay)]> (objects s)
      /\ domain_data s' = <[host_key entry := fresh (dom (objects s))]> (domain_data s)
      /\ tasks s' = tasks s
  | Some l =>
      match objects s !! l with
      | Some o =>
          objects s' = <[l := add_subscriber o]> (objects s)
          /\ domain_data s' = domain_data s
          /\ tasks s' = tasks s
      | None => s' = s
      end
  end.
Proof.
  cbv zeta. destruct (domain_data s !! host_key entry) as [l|] eqn:Hk.
  - destruct (objects s !! l) as [o|] eqn:Hl; ha_unfold; cbn;
      rewrite Hk; cbn; rewrite Hk; cbn; rewrite Hl; ha_run; [|done].
    rewrite Hk. ha_run. done.
  - ha_unfold. cbn. rewrite Hk. ha_run. done.
Qed.

Lemma await_async_disconnect_eq (O : Oracle) (l : nat) (s : Hass) (o : ModbusHost) :
  close_ok O ->
  objects s !! l = Some o ->
  await_async_disconnect O l s
  = (inr tt,
     {| objects :=
          <[l := with_client o
                   (_client o ++ snd (interp O async_disconnect (_client o)))]>
            (objects s);
        domain_data := domain_data s;
        entry_data := entry_data s;
        tasks := tasks s |}).
Proof.
  intros Hclose Hl. unfold await_async_disconnect, load, store, await, mbind, HA_bind.
  rewrite Hl. by rewrite (disconnect_returns O _ Hclose).
Qed.

(** What a successful [async_unload_entry] does to them. *)
Lemma unload_fields (O : Oracle) (s : Hass) (entry : ConfigEntry) :
  close_ok O ->
  let s' := snd (async_unload_entry O entry (inr true) s) in
  match domain_data s !! host_key entry with
  | None => s' = s
  | Some l =>
      match objects s !! l with
      | None => s' = s
      | Some o =>
          if _subscriber_count o - 1 =? 0
          then
            objects s'
            = <[l := with_client (fst (remove_subscriber o))
                       (_client o ++ snd (interp O async_disconnect (_client o)))]>
                (objects s)
            /\ domain_data s' = delete (host_key entry) (domain_data s)
            /\ tasks s' = tasks s ++ [l]
          else
            objects s' = <[l := fst (remove_subscriber o)]> (objects s)
            /\ domain_data s' = domain_data s
            /\ tasks s' = tasks s
      end
  end.
Proof.
  intros Hclose. cbv zeta.
  destruct (domain_data s !! host_key entry) as [l|] eqn:Hk.
  2:{ ha_unfold. cbn. by rewrite Hk. }
  destruct (objects s !! l) as [o|] eqn:Hl.
  2:{ ha_unfold. cbn. rewrite Hk. cbn. by rewrite Hl. }
  ha_unfold. cbn -[await_async_disconnect]. rewrite Hk.
  cbn -[await_async_disconnect]. rewrite Hl. cbn -[await_async_disconnect].
  unfold get_subscriber_count. ha_run.
  destruct (_subscriber_count o - 1 =? 0) eqn:Hz; ha_run; rewrite ?Hz; ha_run.
  - erewrite await_async_disconnect_eq; [|done|cbn; by rewrite lookup_insert_eq].
    ha_run. rewrite Hk. cbn.
    by destruct (entry_data s !! entry_id entry).
  - by destruct (entry_data s !! entry_id entry).
Qed.

Lemma same_counts_refl (s : Hass) : same_counts s s.
Proof. by split. Qed.

Lemma same_counts_trans (s1 s2 s3 : Hass) :
  same_counts s1 s2 -> same_counts s2 s3 -> same_counts s1 s3.
Proof.
  intros [Hd1 Ho1] [Hd2 Ho2]. split; [congruence|].
  intros l. by rewrite Ho2, Ho1.
Qed.

Lemma same_counts_subscriber_count (s s' : Hass) (k : string) :
  same_counts s s' -> subscriber_count s' k = subscriber_count s k.
Proof.
  intros [Hd Ho]. unfold subscriber_count. rewrite Hd.
  destruct (domain_data s !! k) as [l|]; [|done].
  specialize (Ho l).
  destruct (objects s' !! l), (objects s !! l); simpl in Ho; congruence.
Qed.

Lemma same_counts_registry_ok (s s' : Hass) :
  same_counts s s' -> registry_ok s -> registry_ok s'.
Proof.
  intros [Hd Ho] [H1 H2]. split.
  - intros k l. rewrite Hd. intros Hk.
    destruct (H1 k l Hk) as (o & Hl & Hpos). specialize (Ho l).
    rewrite Hl in Ho. destruct (objects s' !! l) as [o'|]; [|done].
    exists o'. split; [done|]. simpl in Ho. injection Ho as ->. done.
  - intros k1 k2 l. rewrite Hd. apply H2.
Qed.

Lemma disconnect_task_same_counts (O : Oracle) (l : nat) (s : Hass) :
  same_counts s (snd (await_async_disconnect O l s)).
Proof.
  unfold await_async_disconnect, load, store, await, mbind, HA_bind.
  destruct (objects s !! l) as [o|] eqn:Hl; [|apply same_counts_refl].
  split; [done|]. intros l'. cbn -[interp].
  destruct (decide (l = l')) as [->|Hne].
  - by rewrite lookup_insert_eq, Hl.
  - by rewrite lookup_insert_ne.
Qed.

Lemma run_pending_tasks_same_counts (O : Oracle) (s : Hass) :
  same_counts s (run_pending_tasks O s).
Proof.
  unfold run_pending_tasks.
  assert (forall ls s1, same_counts s s1 ->
    same_counts s (foldl (fun s l => snd (await_async_disconnect O l s)) s1 ls)) as H.
  { induction ls as [|l ls IH]; intros s1 H1; [done|]. simpl. apply IH.
    eapply same_counts_trans; [exact H1|apply disconnect_task_same_counts]. }
  apply H. by split.
Qed.

Lemma registry_ok_subscriber_count (s : Hass) (k : string) :
  registry_ok s ->
  0 <= subscriber_count s k
  /\ (is_Some (domain_data s !! k) <-> 0 < subscriber_count s k).
Proof.
  intros [H1 _]. unfold subscriber_count.
  destruct (domain_data s !! k) as [l|] eqn:Hk.
  - destruct (H1 k l Hk) as (o & -> & Hpos). split; [lia|]. split; [done|by eexists].
  - split; [lia|]. split; [by intros [? ?]|lia].
Qed.

Lemma acquire_spec (O : Oracle) (s : Hass) (entry : ConfigEntry) (k : string) :
  registry_ok s ->
  registry_ok (step O s (Acquire entry))
  /\ subscriber_count (step O s (Acquire entry)) k
     = subscriber_count s k + (if bool_decide (host_key entry = k) then 1 else 0).
Proof.
  intros [H1 H2]. pose proof (setup_fields s entry) as Hf. cbv zeta in Hf.
  cbn [step]. set (s' := snd (async_setup_entry entry (inr tt) s)) in *.
  destruct (domain_data s !! host_key entry) as [l|] eqn:Hk.
  - destruct (H1 _ _ Hk) as (o & Hl & Hpos). rewrite Hl in Hf.
    destruct Hf as (Hobj & Hdom & _). split; [split|].
    + intros k' l'. rewrite Hdom, Hobj. intros Hk'.
      destruct (decide (l = l')) as [<-|Hne].
      * rewrite lookup_insert_eq. eexists; split; [done|]. simpl. lia.
      * rewrite lookup_insert_ne by done. by apply (H1 k').
    + intros k1 k2 l'. rewrite Hdom. apply H2.
    + unfold subscriber_count. rewrite Hdom, Hobj. case_bool_decide as Hkk.
      * subst k. rewrite Hk, lookup_insert_eq, Hl. simpl. lia.
      * destruct (domain_data s !! k) as [l'|] eqn:Hk'; [|lia].
        rewrite lookup_insert_ne; [lia|].
        intros ->. apply Hkk. by apply (H2 _ _ l').
  - destruct Hf as (Hobj & Hdom & _).
    pose proof (fresh_object_None s) as Hfresh.
    set (f := fresh (dom (objects s))) in *. split; [split|].
    + intros k' l'. rewrite Hdom, Hobj.
      destruct (decide (host_key entry = k')) as [<-|Hne].
      * rewrite lookup_insert_eq. intros [= <-]. rewrite lookup_insert_eq.
        eexists; split; [done|]. simpl. lia.
      * rewrite lookup_insert_ne by done. intros Hk'.
        destruct (H1 _ _ Hk') as (o & Hl & Hpos).
        rewrite lookup_insert_ne by congruence. by exists o.
    + intros k1 k2 l'. rewrite Hdom.
      destruct (decide (host_key entry = k1)) as [<-|Hne1];
        destruct (decide (host_key entry = k2)) as [<-|Hne2];
        rewrite ?lookup_insert_eq, ?lookup_insert_ne by done; try done.
      * intros [= <-] Hk2. destruct (H1 _ _ Hk2) as (o & Hl & _). congruence.
      * intros Hk1 [= <-]. destruct (H1 _ _ Hk1) as (o & Hl & _). congruence.
      * apply H2.
    + unfold subscriber_count. rewrite Hdom, Hobj. case_bool_decide as Hkk.
      * subst k. rewrite Hk, !lookup_insert_eq. simpl. lia.
      * rewrite lookup_insert_ne by done.
        destruct (domain_data s !! k) as [l'|] eqn:Hk'; [|lia].
        destruct (H1 _ _ Hk') as (o & Hl & _).
        rewrite lookup_insert_ne by congruence. lia.
Qed.

Lemma release_spec (O : Oracle) (s : Hass) (entry : ConfigEntry) (k : string) :
  close_ok O ->
  registry_ok s ->
  registry_ok (step O s (Release entry))
  /\ subscriber_count (step O s (Release entry)) k
     = subscriber_count s k
       - (if bool_decide (host_key entry = k)
          then (if 0 <? subscriber_count s k then 1 else 0) else 0).
Proof.
  intros Hclose [H1 H2]. pose proof (unload_fields O s entry Hclose) as Hf.
  cbv zeta in Hf. cbn [step].
  set (s' := snd (async_unload_entry O entry (inr true) s)) in *.
  destruct (domain_data s !! host_key entry) as [l|] eqn:Hk.
  2:{ rewrite Hf. split; [by split|]. case_bool_decide as Hkk; [|lia].
      subst k. unfold subscriber_count. rewrite Hk. simpl. lia. }
  destruct (H1 _ _ Hk) as (o & Hl & Hpos). rewrite Hl in Hf.
  assert (forall k', k' <> host_key entry -> forall l',
    domain_data s !! k' = Some l' -> l' <> l) as Hother.
  { intros k' Hne l' Hk' ->. apply Hne. by apply (H2 _ _ l). }
  destruct (_subscriber_count o - 1 =? 0) eqn:Hz; destruct Hf as (Hobj & Hdom & _).
  - apply Z.eqb_eq in Hz. split; [split|].
    + intros k' l'. rewrite Hdom, Hobj.
      destruct (decide (host_key entry = k')) as [<-|Hne].
      * by rewrite lookup_delete_eq.
      * rewrite lookup_delete_ne by done. intros Hk'.
        rewrite lookup_insert_ne; [by apply (H1 k')|].
        intros ->. by apply (Hother k' (not_eq_sym Hne) l').
    + intros k1 k2 l'. rewrite Hdom. intros Hk1 Hk2.
      apply lookup_delete_Some in Hk1 as [_ Hk1].
      apply lookup_delete_Some in Hk2 as [_ Hk2]. by apply (H2 _ _ l').
    + unfold subscriber_count. rewrite Hdom, Hobj. case_bool_decide as Hkk.
      * subst k. rewrite lookup_delete_eq, Hk, Hl.
        assert ((0 <? _subscriber_count o) = true) as -> by (apply Z.ltb_lt; lia).
        lia.
      * rewrite lookup_delete_ne by done.
        destruct (domain_data s !! k) as [l'|] eqn:Hk'; [|lia].
        rewrite lookup_insert_ne; [lia|].
        intros ->. by apply (Hother k (not_eq_sym Hkk) l').
  - apply Z.eqb_neq in Hz. split; [split|].
    + intros k' l'. rewrite Hdom, Hobj. intros Hk'.
      destruct (decide (l = l')) as [<-|Hne].
      * rewrite lookup_insert_eq. eexists; split; [done|]. simpl. lia.
      * rewrite lookup_insert_ne by done. by apply (H1 k').
    + intros k1 k2 l'. rewrite Hdom. apply H2.
    + unfold subscriber_count. rewrite Hdom, Hobj. case_bool_decide as Hkk.
      * subst k. rewrite Hk, lookup_insert_eq, Hl.
        assert ((0 <? _subscriber_count o) = true) as -> by (apply Z.ltb_lt; lia).
        simpl. lia.
      * destruct (domain_data s !! k) as [l'|] eqn:Hk'; [|lia].
        rewrite lookup_insert_ne; [lia|].
        intros ->. by apply (Hother k (not_eq_sym Hkk) l').
Qed.

Lemma run_spec (O : Oracle) (calls : list Call) (k : string) :
  close_ok O ->
  forall (s : Hass) (n : Z),
    registry_ok s ->
    subscriber_count s k = n ->
    bracketed k n calls = true ->
    registry_ok (run O calls s)
    /\ subscriber_count (run O calls s) k = n + acquired k calls - released k calls.
Proof.
  intros Hclose. induction calls as [|c calls IH]; intros s n Hok Hn Hb.
  - simpl. split; [done|lia].
  - unfold run in *. cbn [foldl]. destruct c as [entry|entry|].
    + destruct (acquire_spec O s entry k Hok) as [Hok' Hn'].
      cbn [bracketed acquired released] in *.
      destruct (IH _ _ Hok' eq_refl) as [Hok'' Hn''].
      { rewrite Hn', Hn. case_bool_decide; [done|].
        by replace (n + 0) with n by lia. }
      split; [done|]. rewrite Hn'', Hn', Hn. case_bool_decide; lia.
    + destruct (release_spec O s entry k Hclose Hok) as [Hok' Hn'].
      cbn [bracketed acquired released] in *.
      destruct (IH _ _ Hok' eq_refl) as [Hok'' Hn''].
      { rewrite Hn', Hn. case_bool_decide.
        - apply andb_true_iff in Hb as [Hpos Hb]. by rewrite Hpos.
        - by replace (n - 0) with n by lia. }
      split; [done|]. rewrite Hn'', Hn', Hn. case_bool_decide; [|lia].
      apply andb_true_iff in Hb as [-> _]. lia.
    + pose proof (run_pending_tasks_same_counts O s) as Hsame.
      cbn [step bracketed acquired released] in *.
      apply (IH (run_pending_tasks O s) n).
      * by apply (same_counts_registry_ok s).
      * by rewrite (same_counts_subscriber_count s).
      * done.
Qed.

Lemma registry_ok_new : registry_ok (snd (async_setup new_hass)).
Proof. split; intros ?; cbn; intros; simplify_map_eq. Qed.

(** C5, as the specification states it, fails on a release that no acquire precedes:
    [async_unload_entry] raises [KeyError] and leaves the registry as it is, so
    the count of the endpoint (no host, 0) is not the number of acquires minus
    the number of releases (-1); and [remove_subscriber] on a host without
    subscribers makes its count negative. *)
Lemma release_without_acquire :
  async_unload_entry (scripted []) entry_1 (inr true) fresh_hass
  = (inl KeyError, fresh_hass)
  /\ subscriber_count (run (scripted []) [Release entry_1] fresh_hass) "10.0.0.5:502"
     = 0
  /\ acquired "10.0.0.5:502" [Release entry_1]
     - released "10.0.0.5:502" [Release entry_1] = -1
  /\ _subscriber_count (fst (remove_subscriber example_host)) = -1.
Proof. repeat split; vm_compute; reflexivity. Qed.

(** C5, amended. For any sequence of acquires ([async_setup_entry]), releases
    (successful [async_unload_entry]) and turns of the event loop in which no
    release of the endpoint comes without an earlier acquire of it still to be
    released, and on a transport whose [close()] does not raise: the subscriber
    count of the endpoint is the number of its acquires minus the number of
    its releases, it is not negative, and the registry has a host for the
    endpoint if and only if the count is greater than zero. *)
Theorem subscriber_count_balance (O : Oracle) (calls : list Call) (k : string) :
  close_ok O ->
  bracketed k 0 calls = true ->
  let hass := run O calls (snd (async_setup new_hass)) in
  subscriber_count hass k = acquired k calls - released k calls
  /\ 0 <= subscriber_count hass k
  /\ (is_Some (domain_data hass !! k) <-> 0 < subscriber_count hass k).
Proof.
  intros Hclose Hb hass.
  destruct (run_spec O calls k Hclose (snd (async_setup new_hass)) 0
              registry_ok_new eq_refl Hb) as [Hok Hn].
  fold hass in Hok, Hn. split; [rewrite Hn; lia|].
  by apply registry_ok_subscriber_count.
Qed.

Lemma subscriber_count_balance_witness :
  subscriber_count (run (scripted []) example_calls fresh_hass) "10.0.0.5:502" = 0
  /\ 0 <= subscriber_count (run (scripted []) example_calls fresh_hass) "10.0.0.5:502"
  /\ (is_Some (domain_data (run (scripted []) example_calls fresh_hass)
                 !! "10.0.0.5:502")
      <-> 0 < subscriber_count (run (scripted []) example_calls fresh_hass)
                "10.0.0.5:502").
Proof.
  apply (subscriber_count_balance (scripted []) example_calls "10.0.0.5:502").
  - intros h. by exists tt.
  - vm_compute. reflexivity.
Defined.

Lemma laws_close_ok (O : Oracle) : transport_laws O -> close_ok O.
Proof. intros laws h. exists tt. apply (close_down O laws). Qed.

(** C7. On a transport that obeys its laws: when a release takes the
    subscriber count of an endpoint from 1 to 0, the registry entry of the
    endpoint is removed, [async_disconnect] has run on the host (calling
    [close()] when the transport was connected) and the transport is
    disconnected afterwards; and an endpoint without a host that is acquired
    twice and released once has a host with count 1. *)
Theorem release_lifecycle (O : Oracle) (s s0 : Hass) (e e1 e2 e3 : ConfigEntry)
    (l : nat) (o : ModbusHost) :
  transport_laws O ->
  domain_data s !! host_key e = Some l ->
  objects s !! l = Some o ->
  _subscriber_count o = 1 ->
  domain_data s0 !! host_key e1 = None ->
  host_key e2 = host_key e1 ->
  host_key e3 = host_key e1 ->
  let s' := snd (async_unload_entry O e (inr true) s) in
  let s2 := run O [Acquire e1; Acquire e2; Release e3] s0 in
  domain_data s' !! host_key e = None
  /\ (exists o',
        objects s' !! l = Some o'
        /\ _subscriber_count o' = 0
        /\ _client o' = _client o ++ snd (interp O async_disconnect (_client o))
        /\ O (_client o') _ ClientConnected = false)
  /\ (O (_client o) _ ClientConnected = true ->
      snd (interp O async_disconnect (_client o))
      = [Ob ClientConnected true; Ob ClientClose (inr tt)])
  /\ is_Some (domain_data s2 !! host_key e1)
  /\ subscriber_count s2 (host_key e1) = 1.
Proof.
  intros laws Hk Hl Hone Habs Hk2 Hk3 s' s2.
  pose proof (laws_close_ok O laws) as Hclose.
  split; [|split; [|split]].
  - pose proof (unload_fields O s e Hclose) as Hf. cbv zeta in Hf.
    rewrite Hk, Hl, Hone in Hf. cbn in Hf. destruct Hf as (_ & Hdom & _).
    subst s'. rewrite Hdom. apply lookup_delete_eq.
  - pose proof (unload_fields O s e Hclose) as Hf. cbv zeta in Hf.
    rewrite Hk, Hl, Hone in Hf. cbn -[interp async_disconnect] in Hf.
    destruct Hf as (Hobj & _ & _). subst s'. rewrite Hobj, lookup_insert_eq.
    eexists. split; [reflexivity|]. cbn -[interp async_disconnect].
    split; [lia|]. split; [done|].
    by apply disconnected_after_disconnect.
  - intros Hup. by rewrite (interp_disconnect_up O laws _ Hup).
  - subst s2. unfold run. cbn [foldl step].
    set (s1 := snd (async_setup_entry e1 (inr tt) s0)).
    pose proof (setup_fields s0 e1) as H1. cbv zeta in H1. rewrite Habs in H1.
    fold s1 in H1. destruct H1 as (Hobj1 & Hdom1 & _).
    set (f := fresh (dom (objects s0))) in *.
    set (s12 := snd (async_setup_entry e2 (inr tt) s1)).
    pose proof (setup_fields s1 e2) as H2. cbv zeta in H2. fold s12 in H2.
    rewrite Hk2, Hdom1, lookup_insert_eq, Hobj1, lookup_insert_eq in H2.
    destruct H2 as (Hobj2 & Hdom2 & _).
    set (s3 := snd (async_unload_entry O e3 (inr true) s12)).
    pose proof (unload_fields O s12 e3 Hclose) as H3. cbv zeta in H3. fold s3 in H3.
    rewrite Hk3, Hdom2, lookup_insert_eq, Hobj2, lookup_insert_eq in H3.
    cbn in H3. destruct H3 as (Hobj3 & Hdom3 & _).
    unfold subscriber_count. rewrite Hdom3, lookup_insert_eq.
    split; [by eexists|]. rewrite Hobj3, lookup_insert_eq. reflexivity.
Qed.

Lemma release_lifecycle_witness :
  domain_data
    (snd (async_unload_entry (scripted []) entry_1 (inr true)
            (run (scripted []) [Acquire entry_1] fresh_hass)))
    !! "10.0.0.5:502" = None
  /\ subscriber_count
       (run (scripted []) [Acquire entry_1; Acquire entry_2; Release entry_1] fresh_hass)
       "10.0.0.5:502" = 1.
Proof.
  pose proof (release_lifecycle (scripted [])
    (run (scripted []) [Acquire entry_1] fresh_hass) fresh_hass
    entry_1 entry_1 entry_2 entry_1
    (fresh (dom (objects new_hass))) (add_subscriber example_host)
    (scripted_laws [])) as H.
  cbv zeta in H.
  destruct H as (Hgone & _ & _ & _ & Hcount);
    [vm_compute; reflexivity..|].
  split; [exact Hgone|exact Hcount].
Defined.

(** ** Serialization of the operations of one host *)

Lemma lockfree_bind {A B} (p : Prog A) (f : A -> Prog B) :
  LockFree p -> (forall a, LockFree (f a)) -> LockFree (bind p f).
Proof.
  intros Hp Hf. induction p as [a|e|X ev k IH]; cbn in *; [done..|].
  destruct Hp as (Ha & Hr & Hk). repeat split; [done..|].
  intros x. by apply IH.
Qed.

Lemma lockfree_try_except {A} (p : Prog A) (h : exn -> Prog A) :
  LockFree p -> (forall e, LockFree (h e)) -> LockFree (try_except p h).
Proof.
  intros Hp Hh. induction p as [a|e|X ev k IH]; cbn in *; [done..|].
  destruct Hp as (Ha & Hr & Hk). repeat split; [done..|].
  intros x. by apply IH.
Qed.

Lemma lockfree_for_in {A R} (xs : list A) (body : A -> Prog (option R))
    (after : Prog R) :
  (forall x, LockFree (body x)) -> LockFree after ->
  LockFree (for_in xs body after).
Proof.
  intros Hb Ha. induction xs as [|x xs IH]; [done|].
  cbn [for_in]. apply lockfree_bind; [done|]. by intros [v|].
Qed.

Lemma lockfree_async_connect : LockFree async_connect.
Proof. cbn. repeat split. by intros [|]; cbn; repeat split; try intros [|]. Qed.

Lemma closing_finally {A} (p : Prog A) :
  LockFree p -> Closing (finally p (trigger LockRelease)).
Proof.
  intros Hp. induction p as [a|e|X ev k IH]; cbn in *; [done..|].
  destruct Hp as (-> & -> & Hk). intros x. by apply IH.
Qed.

Lemma scoped_with_lock {A} (p : Prog A) : LockFree p -> Scoped (with_lock p).
Proof. intros Hp. cbn. split; [done|]. intros _. by apply closing_finally. Qed.

Ltac lockfree :=
  repeat first
    [ apply lockfree_async_connect
    | apply lockfree_bind
    | apply lockfree_try_except
    | apply lockfree_for_in
    | progress intros
    | match goal with
      | |- LockFree (if ?b then _ else _) => destruct b
      | |- LockFree (match ?o with Some _ => _ | None => _ end) => destruct o
      | |- LockFree (match ?o with inl _ => _ | inr _ => _ end) => destruct o
      | |- LockFree (bits_0 ?r) => unfold bits_0; destruct (bits r)
      end
    | (cbn; repeat split; done) ].

Lemma scoped_retry_read {V} (self : ModbusHost) (ev : Event (exn + Response))
    (values : Response -> list V) (count address : Z) (m1 m2 : string) :
  is_acquire ev = false -> is_release ev = false ->
  Scoped (retry_read self ev values count address m1 m2).
Proof.
  intros Ha Hr. apply scoped_with_lock. apply lockfree_for_in.
  - intros x. unfold retry_body.
    apply lockfree_bind; [apply lockfree_async_connect|]. intros _.
    apply lockfree_bind.
    { cbn. rewrite Ha, Hr. repeat split. by intros [|]. }
    intros r. lockfree.
  - lockfree.
Qed.

Lemma scoped_write_once (ev : Event (exn + Response)) (address : Z)
    (m1 m2 m3 m4 : string) :
  is_acquire ev = false -> is_release ev = false ->
  Scoped (write_once ev address m1 m2 m3 m4).
Proof.
  intros Ha Hr. apply scoped_with_lock. apply lockfree_try_except.
  - apply lockfree_bind; [apply lockfree_async_connect|]. intros _.
    apply lockfree_bind.
    { cbn. rewrite Ha, Hr. repeat split. by intros [|]. }
    intros r. lockfree.
  - intros e. lockfree.
Qed.

Lemma scoped_async_read_coil (self : ModbusHost) (unit_id address : Z) :
  Scoped (async_read_coil self unit_id address).
Proof.
  apply scoped_with_lock.
  apply lockfree_bind; [apply lockfree_async_connect|]. intros _.
  apply lockfree_bind.
  { cbn. repeat split. by intros [|]. }
  intros r. lockfree.
Qed.

(** Every register operation is one scoped acquisition of the lock. *)
Lemma scoped_start (self : ModbusHost) (op : Operation) :
  scoped_task (start self op).
Proof.
  destruct op; cbn [start scoped_task].
  - rewrite async_read_holding_registers_retry. by apply scoped_retry_read.
  - rewrite async_read_input_registers_retry. by apply scoped_retry_read.
  - apply scoped_async_read_coil.
  - rewrite async_read_coils_retry. by apply scoped_retry_read.
  - rewrite async_write_register_once. by apply scoped_write_once.
  - rewrite async_write_coil_once. by apply scoped_write_once.
Qed.

Lemma config_ok_initial (self : ModbusHost) (ops : list Operation) :
  config_ok (initial self ops).
Proof.
  intros i t. cbn. rewrite list_lookup_fmap.
  destruct (ops !! i) as [op|]; [|done]. intros [= <-].
  pose proof (scoped_start self op) as Hs.
  destruct (start self op); [by left|done].
Qed.

Lemma config_ok_step (O : Oracle) (c c' : Config) :
  sched_step O c c' -> config_ok c -> config_ok c'.
Proof.
  intros Hstep Hok. destruct Hstep as [c i A k Hi Hfree|c i A k Hi
    |c i A X ev k Hi Ha Hr|c i A X ev k Hi];
    pose proof (Hok i _ Hi) as Hti; pose proof (lookup_lt_Some _ _ _ Hi) as Hlt;
    intros j t; cbn [lock pool].
  - rewrite Hfree in Hti. cbn in Hti. destruct Hti as [[_ Hk]|[]].
    destruct (decide (i = j)) as [<-|Hne].
    + rewrite list_lookup_insert_eq by done. intros [= <-].
      rewrite bool_decide_eq_true_2 by done. apply Hk.
    + rewrite list_lookup_insert_ne by done. intros Hj.
      rewrite bool_decide_eq_false_2 by congruence.
      specialize (Hok j t Hj). by rewrite Hfree in Hok.
  - assert (lock c = Some i) as Hholder.
    { destruct (decide (lock c = Some i)) as [|Hn]; [done|].
      rewrite bool_decide_eq_false_2 in Hti by done. cbn in Hti.
      by destruct Hti as [[? _]|[]]. }
    rewrite bool_decide_eq_true_2 in Hti by done. cbn in Hti.
    destruct (decide (i = j)) as [<-|Hne].
    + rewrite list_lookup_insert_eq by done. intros [= <-]. cbn. right. apply Hti.
    + rewrite list_lookup_insert_ne by done. intros Hj.
      specialize (Hok j t Hj).
      rewrite bool_decide_eq_false_2 in Hok by congruence. exact Hok.
  - assert (lock c = Some i /\ forall x, Closing (k x)) as [Hholder Hk].
    { destruct (decide (lock c = Some i)) as [Hy|Hn].
      - rewrite bool_decide_eq_true_2 in Hti by done. cbn in Hti.
        by rewrite Hr, Ha in Hti.
      - rewrite bool_decide_eq_false_2 in Hti by done. cbn in Hti.
        destruct Hti as [[? _]|[]]. congruence. }
    destruct (decide (i = j)) as [<-|Hne].
    + rewrite list_lookup_insert_eq by done. intros [= <-].
      rewrite bool_decide_eq_true_2 by done. cbn. done.
    + rewrite list_lookup_insert_ne by done. apply Hok.
  - cbn in Hti. destruct Hti as (Hholder & _ & _ & Hk).
    destruct (decide (i = j)) as [<-|Hne].
    + rewrite list_lookup_insert_eq by done. intros [= <-].
      rewrite Hholder. cbn. apply Hk.
    + rewrite list_lookup_insert_ne by done. apply Hok.
Qed.

Lemma config_ok_reachable (O : Oracle) (c c' : Config) :
  rtc (sched_step O) c c' -> config_ok c -> config_ok c'.
Proof.
  induction 1 as [|c1 c2 c3 Hstep _ IH]; [done|].
  intros Hok. apply IH. by apply (config_ok_step O c1).
Qed.

(** C9. Every register operation is one scoped acquisition of the host's
    lock: it starts by acquiring it, makes every other call while holding it,
    and releases it right before it ends, whether it returns or raises.  So,
    however the event loop interleaves the operations started on a host, a
    task with a call in flight holds the lock, no two tasks have a wire
    exchange in flight at once, and a task that has ended does not hold the
    lock. *)
Theorem operations_serialized (O : Oracle) (self : ModbusHost)
    (ops : list Operation) (c : Config) :
  rtc (sched_step O) (initial self ops) c ->
  (forall op, scoped_task (start self op))
  /\ (forall i t, pool c !! i = Some t -> in_flight t = true -> lock c = Some i)
  /\ (forall i j ti tj,
        pool c !! i = Some ti -> pool c !! j = Some tj ->
        in_flight ti = true -> in_flight tj = true -> i = j)
  /\ (forall i A (p : Prog A),
        pool c !! i = Some (Running p) -> Finished p -> lock c <> Some i).
Proof.
  intros Hreach.
  pose proof (config_ok_reachable O _ _ Hreach (config_ok_initial self ops)) as Hok.
  assert (forall i t, pool c !! i = Some t -> in_flight t = true -> lock c = Some i)
    as Hholder.
  { intros i t Hi Hfl. specialize (Hok i t Hi). destruct t as [A p|A X ev k]; [done|].
    cbn in Hok. destruct Hok as (Hh & _). by apply bool_decide_eq_true in Hh. }
  split; [apply scoped_start|]. split; [exact Hholder|]. split.
  - intros i j ti tj Hi Hj Hfi Hfj.
    pose proof (Hholder i ti Hi Hfi) as H1. pose proof (Hholder j tj Hj Hfj) as H2.
    congruence.
  - intros i A p Hi Hfin Hlock. specialize (Hok i _ Hi).
    rewrite bool_decide_eq_true_2 in Hok by done. cbn in Hok.
    by destruct p.
Qed.

Lemma operations_serialized_witness :
  exists c,
    rtc (sched_step (scripted []))
      (initial example_host [OpWriteRegister 1 12 250; OpReadHoldingRegisters 1 4 1]) c
    /\ lock c = Some 0%nat
    /\ (exists A (k : bool -> Prog A),
          pool c !! 0%nat = Some (Awaiting ClientConnected k))
    /\ (forall i t, pool c !! i = Some t -> in_flight t = true -> lock c = Some i).
Proof.
  eexists. split.
  - eapply rtc_l.
    { eapply (step_acquire (scripted []) _ 0); reflexivity. }
    eapply rtc_l.
    { eapply (step_issue (scripted []) _ 0 ClientConnected); reflexivity. }
    apply rtc_refl.
  - split; [reflexivity|]. split; [by eexists _, _|].
    eapply (operations_serialized (scripted []) example_host
              [OpWriteRegister 1 12 250; OpReadHoldingRegisters 1 4 1]).
    eapply rtc_l.
    { eapply (step_acquire (scripted []) _ 0); reflexivity. }
    eapply rtc_l.
    { eapply (step_issue (scripted []) _ 0 ClientConnected); reflexivity. }
    apply rtc_refl.
Defined.

(** * Further properties of [modbus_host.py] *)

Lemma async_connect_quiet (O : Oracle) (h : list Obs) :
  skeleton (snd (interp O async_connect h)) = []
  /\ error_logs (snd (interp O async_connect h)) = 0%nat
  /\ log_records (snd (interp O async_connect h)) = 0%nat.
Proof.
  unfold async_connect, trigger, call. simpl.
  destruct (O h bool ClientConnected); simpl; [done|].
  by destruct (O _ _ ClientConnect).
Qed.

Lemma spaced_S (m : nat) (d : Q) :
  spaced (S m) d = Attempt :: match m with 0%nat => [] | S _ => Wait d :: spaced m d end.
Proof. by destruct m. Qed.

Section RetryAnyTransport.

Context {V : Type} (O : Oracle) (self : ModbusHost).
Context (ev : Event (exn + Response)) (values : Response -> list V).
Context (count address : Z) (retry_msg exhausted_msg : string).

Hypothesis ev_wire : forall x, step_of (Ob ev x) = Some Attempt.

Let body := retry_body self ev values count address retry_msg.
Let after : Prog (option (list V)) :=
  trigger (Log ERROR exhausted_msg address) ;; Ret None.
Let d := _retry_delay self.
Let n := Z.to_nat (_max_retry_count self).

(** One iteration, whatever the transport answers: it ends the loop (the
    values are returned or an exception escapes) after at most one attempt and
    no wait, or it goes on after one attempt, followed by one wait unless it
    is the last iteration. *)
Lemma interp_body_any (h : list Obs) (attempt : Z) :
  let run := interp O (body attempt) h in
  error_logs (snd run) = 0%nat
  /\ match fst run with
     | inr None =>
         skeleton (snd run)
         = Attempt :: (if attempt <? _max_retry_count self - 1 then [Wait d] else [])
     | _ => skeleton (snd run) = [] \/ skeleton (snd run) = [Attempt]
     end.
Proof using ev_wire.
  cbv zeta. unfold body, retry_body. rewrite interp_bind.
  destruct (async_connect_quiet O h) as (Hsk & Hel & _).
  destruct (interp O async_connect h) as [[e|[]] trc]; cbn [fst snd] in *.
  { split; [done|by left]. }
  unfold call. cbn [bind interp].
  pose proof (attempt_not_error_log _ (ev_wire (O (h ++ trc) _ ev))) as Hnl.
  pose proof (ev_wire (O (h ++ trc) _ ev)) as Hw.
  destruct (O (h ++ trc) _ ev) as [e|r]; cbn [bind interp fst snd].
  { rewrite skeleton_app, error_logs_app, Hsk, Hel. cbn [skeleton error_logs app].
    rewrite Hw, Hnl. split; [done|by right]. }
  destruct (negb (isError r) && (len (values r) =? count)); cbn [bind interp fst snd].
  { rewrite skeleton_app, error_logs_app, Hsk, Hel. cbn [skeleton error_logs app].
    rewrite Hw, Hnl. split; [done|by right]. }
  destruct (attempt <? _max_retry_count self - 1); unfold trigger; simpl;
    repeat match goal with |- context [O ?hh unit ?e] => destruct (O hh unit e) end;
    cbn [fst snd]; rewrite !skeleton_app, !error_logs_app, Hsk, Hel;
    cbn [skeleton error_logs app]; rewrite Hw, Hnl; simpl; done.
Qed.

Lemma interp_loop_any (m i : nat) (h : list Obs) :
  (i + m = n)%nat ->
  let run := interp O (for_in (map Z.of_nat (seq i m)) body after) h in
  skeleton (snd run) `prefix_of` spaced m d
  /\ error_logs (snd run) = (if is_sentinel (fst run) then 1 else 0)%nat.
Proof using ev_wire.
  revert i h. induction m as [|m IH]; intros i h Him; cbv zeta.
  - unfold after, trigger. simpl.
    repeat match goal with |- context [O ?hh unit ?e] => destruct (O hh unit e) end.
    split; [apply prefix_nil|done].
  - cbn [seq map for_in]. rewrite interp_bind.
    destruct (interp_body_any h (Z.of_nat i)) as [Hel Hsk].
    assert ((Z.of_nat i <? _max_retry_count self - 1)
            = match m with 0%nat => false | S _ => true end) as Hlast.
    { assert (Z.of_nat n = _max_retry_count self) as Hn by (unfold n; lia).
      destruct m; [apply Z.ltb_ge|apply Z.ltb_lt]; lia. }
    rewrite Hlast in Hsk.
    pose proof (retry_body_count O self ev values count address retry_msg
                  (Z.of_nat i) h) as Hbc. fold body in Hbc.
    destruct (interp O (body (Z.of_nat i)) h) as [[e|[v|]] tr1]; cbn [fst snd] in *.
    + split; [|done]. rewrite spaced_S.
      destruct Hsk as [-> | ->]; [apply prefix_nil|]. by apply prefix_cons, prefix_nil.
    + destruct (Hbc v eq_refl) as (vs & -> & _).
      cbn [interp fst snd]. rewrite app_nil_r. split; [|done].
      rewrite spaced_S.
      destruct Hsk as [-> | ->]; [apply prefix_nil|]. by apply prefix_cons, prefix_nil.
    + specialize (IH (S i) (h ++ tr1) ltac:(lia)). cbv zeta in IH.
      destruct (interp O (for_in (map Z.of_nat (seq (S i) m)) body after) (h ++ tr1))
        as [res tr2]; cbn [fst snd] in *.
      destruct IH as [Hpre Hel2].
      rewrite skeleton_app, error_logs_app, Hsk, Hel, Hel2. split; [|done].
      rewrite spaced_S. destruct m as [|m]; cbn [app].
      * by apply prefix_cons.
      * by apply prefix_cons, prefix_cons.
Qed.

Lemma retry_read_any (h : list Obs) :
  let run := interp O (retry_read self ev values count address retry_msg exhausted_msg) h in
  skeleton (snd run) `prefix_of` spaced n d
  /\ error_logs (snd run) = (if is_sentinel (fst run) then 1 else 0)%nat.
Proof using ev_wire.
  cbv zeta. unfold retry_read. rewrite interp_with_lock. cbn [fst snd].
  pose proof (interp_loop_any n 0 (h ++ [Ob LockAcquire tt]) eq_refl) as Hloop.
  cbv zeta in Hloop. unfold range. fold n. fold body. fold after.
  destruct (interp O (for_in (map Z.of_nat (seq 0 n)) body after)
              (h ++ [Ob LockAcquire tt])) as [res tr]; cbn [fst snd] in *.
  destruct Hloop as [Hpre Hel].
  cbn [skeleton error_logs step_of is_error_log].
  rewrite skeleton_app, error_logs_app, Hel. simpl. rewrite app_nil_r.
  split; [done|lia].
Qed.

End RetryAnyTransport.

Lemma prefix_spaced_attempts (ss : list Step) (n : nat) (d : Q) :
  ss `prefix_of` spaced n d -> (count_attempts ss <= n)%nat.
Proof.
  intros [k Hk]. rewrite <- (count_attempts_spaced n d), Hk, count_attempts_app. lia.
Qed.

(** X1. Whatever the transport answers or raises, the wire calls and waits of
    a retried read form a prefix of the pattern "attempt, wait [retry_delay],
    attempt, ..., attempt" with [max_retries] attempts: never more than
    [max_retries] attempts, never a wait of another length, never a wait after
    the last attempt.  An error is logged exactly when the read returns the
    failure sentinel. *)
Theorem read_never_exceeds_retry_pattern (O : Oracle) (self : ModbusHost)
    (unit_id address count : Z) (h : list Obs) :
  let n := Z.to_nat (_max_retry_count self) in
  let pattern_kept {A} (run : (exn + option A) * list Obs) :=
    skeleton (snd run) `prefix_of` spaced n (_retry_delay self)
    /\ (attempts (snd run) <= n)%nat
    /\ error_logs (snd run) = (if is_sentinel (fst run) then 1 else 0)%nat in
  pattern_kept (interp O (async_read_holding_registers self unit_id address count) h)
  /\ pattern_kept (interp O (async_read_input_registers self unit_id address count) h)
  /\ pattern_kept (interp O (async_read_coils self unit_id address count) h).
Proof.
  cbv zeta.
  assert (forall (V : Type) (ev : Event (exn + Response)) (values : Response -> list V)
            (m1 m2 : string),
    (forall x, step_of (Ob ev x) = Some Attempt) ->
    let run := interp O (retry_read self ev values count address m1 m2) h in
    skeleton (snd run) `prefix_of`
      spaced (Z.to_nat (_max_retry_count self)) (_retry_delay self)
    /\ (attempts (snd run) <= Z.to_nat (_max_retry_count self))%nat
    /\ error_logs (snd run) = (if is_sentinel (fst run) then 1 else 0)%nat) as Hgen.
  { intros V ev values m1 m2 Hw. cbv zeta.
    destruct (retry_read_any O self ev values count address m1 m2 Hw h) as [Hp He].
    split; [done|]. split; [|done]. by eapply prefix_spaced_attempts. }
  split; [|split].
  - rewrite async_read_holding_registers_retry. by apply Hgen.
  - rewrite async_read_input_registers_retry. by apply Hgen.
  - rewrite async_read_coils_retry. by apply Hgen.
Qed.

(** X2. With [max_retries <= 0] the loop of a retried read has no iteration:
    the read returns the failure sentinel at once, without a connection probe
    or a wire call, and logs the exhaustion error. *)
Theorem read_without_retries (O : Oracle) (self : ModbusHost)
    (unit_id address count : Z) (h : list Obs) :
  _max_retry_count self <= 0 ->
  interp O (async_read_holding_registers self unit_id address count) h
  = (inr None,
     [Ob LockAcquire tt;
      Ob (Log ERROR
            "Modbus error reading holding registers at address %s, retries exhausted"
            address) tt;
      Ob LockRelease tt])
  /\ interp O (async_read_input_registers self unit_id address count) h
     = (inr None,
        [Ob LockAcquire tt;
         Ob (Log ERROR
               "Modbus error reading input registers at address %s, retries exhausted"
               address) tt;
         Ob LockRelease tt])
  /\ interp O (async_read_coils self unit_id address count) h
     = (inr None,
        [Ob LockAcquire tt;
         Ob (Log ERROR "Modbus error reading coils at address %s, retries exhausted"
               address) tt;
         Ob LockRelease tt]).
Proof.
  intros Hmax.
  assert (range (_max_retry_count self) = []) as Hr.
  { unfold range. by replace (Z.to_nat (_max_retry_count self)) with 0%nat by lia. }
  unfold async_read_holding_registers, async_read_input_registers, async_read_coils.
  rewrite !interp_with_lock, Hr. unfold trigger. simpl.
  repeat match goal with |- context [O ?hh unit ?e] => destruct (O hh unit e) end.
  done.
Qed.

Lemma read_without_retries_witness :
  interp (scripted [inr response_42])
    (async_read_holding_registers (__init__ "10.0.0.5" 502 0 0) 1 4 1) []
  = (inr None,
     [Ob LockAcquire tt;
      Ob (Log ERROR
            "Modbus error reading holding registers at address %s, retries exhausted"
            4) tt;
      Ob LockRelease tt]).
Proof.
  apply (read_without_retries (scripted [inr response_42])
           (__init__ "10.0.0.5" 502 0 0) 1 4 1 []).
  simpl. lia.
Defined.

Lemma write_once_outcome (O : Oracle) (ev : Event (exn + Response)) (address : Z)
    (m1 m2 m3 m4 : string) (h : list Obs) :
  (forall x, step_of (Ob ev x) = Some Attempt) ->
  (forall x, raised (Ob ev x) = match x with inl e => Some e | inr _ => None end) ->
  (forall x, responded (Ob ev x) = match x with inl _ => None | inr r => Some r end) ->
  (forall x, is_error_log (Ob ev x) = false) ->
  write_outcome (interp O (write_once ev address m1 m2 m3 m4) h).
Proof.
  intros Hwire Hraised Hresp Hlog. unfold write_outcome, write_once.
  specialize (Hwire (inl ModbusException)). specialize (Hlog (inl ModbusException)).
  cbn [step_of raised responded is_error_log] in Hwire, Hraised, Hresp, Hlog.
  rewrite interp_with_lock, interp_try_except, interp_bind.
  unfold async_connect, trigger, call, raised_in, responded_in, attempts.
  cbn [interp bind].
  destruct (O _ bool ClientConnected); cbn [negb interp bind].
  2: destruct (O _ _ ClientConnect) as [e|b]; cbn [interp bind app].
  all: try (destruct (O _ _ ev) as [e|[[|] rs bs]]; cbn [interp bind app negb isError]).
  all: try destruct e; cbn [interp bind app isinstance_ModbusIOException
         isinstance_ModbusException isinstance_Exception fst snd].
  all: ask O.
  all: cbn [skeleton map step_of raised responded error_logs is_error_log fst snd app];
    rewrite ?Hwire, ?Hraised, ?Hresp, ?Hlog; cbn [count_attempts In].
  all: clear Hwire Hraised Hresp Hlog.
  all: repeat split; try lia; unfold not; intros; simpl in *;
    repeat match goal with
           | H : _ \/ _ |- _ => destruct H
           | H : exists _, _ |- _ => destruct H
           | H : _ /\ _ |- _ => destruct H
           end;
    simplify_eq/=; try done.
  all: eexists; (split; [solve [repeat (first [left; reflexivity | right])]|done]).
Qed.

(** X3. Whatever the transport does, a write makes at most one wire call and
    never waits; it returns [True] exactly when the write call was answered by
    a response without the error flag, [None] only on a response with the
    error flag and [False] only after an [Exception] of the transport; and it
    logs one error in every case but a returned [True] and an escaping
    exception. *)
Theorem write_single_attempt (O : Oracle) (self : ModbusHost)
    (unit_id address value : Z) (bit : bool) (h : list Obs) :
  write_outcome (interp O (async_write_register self unit_id address value) h)
  /\ write_outcome (interp O (async_write_coil self unit_id address bit) h).
Proof.
  split.
  - rewrite async_write_register_once. by apply write_once_outcome; intros [].
  - rewrite async_write_coil_once. by apply write_once_outcome; intros [].
Qed.

(** X4. Whatever the transport does, the single-coil read makes at most one
    wire call, never waits and never logs: a failed single-coil read leaves no
    record.  It returns the failure sentinel exactly when the read call was
    answered by a response with the error flag. *)
Theorem read_coil_silent (O : Oracle) (self : ModbusHost) (unit_id address : Z)
    (h : list Obs) :
  read_coil_outcome (interp O (async_read_coil self unit_id address) h).
Proof.
  unfold read_coil_outcome, async_read_coil.
  rewrite interp_with_lock, interp_bind.
  unfold async_connect, trigger, call, responded_in, attempts, bits_0.
  cbn [interp bind].
  destruct (O _ bool ClientConnected); cbn [negb interp bind].
  2: destruct (O _ _ ClientConnect) as [e|b]; cbn [interp bind app].
  all: try (destruct (O _ _ (ReadCoils address 1 unit_id)) as [e|[[|] rs [|b0 bs]]];
            cbn [interp bind app negb isError bits]).
  all: cbn [skeleton map step_of responded log_records is_log fst snd app
              count_attempts In].
  all: repeat split; try lia; unfold not; intros; simpl in *;
    repeat match goal with
           | H : _ \/ _ |- _ => destruct H
           | H : exists _, _ |- _ => destruct H
           | H : _ /\ _ |- _ => destruct H
           end;
    simplify_eq/=; try done.
  all: eexists; (split; [solve [repeat (first [left; reflexivity | right])]|done]).
Qed.

(** * Further properties of the registry of [__init__.py] *)

(** [async_setup_entry], in full. *)
Lemma setup_state (s : Hass) (entry : ConfigEntry) (forward : exn + unit) :
  async_setup_entry entry forward s
  = match domain_data s !! host_key entry with
    | None =>
        (match forward with inl x => inl x | inr _ => inr true end,
         {| objects :=
              <[fresh (dom (objects s)) :=
                  add_subscriber
                    (__init__ (CONF_HOST entry) (CONF_PORT entry)
                       default_max_retries default_retry_delay)]> (objects s);
            domain_data :=
              <[host_key entry := fresh (dom (objects s))]> (domain_data s);
            entry_data :=
              <[entry_id entry := fresh (dom (objects s))]> (entry_data s);
            tasks := tasks s |})
    | Some l =>
        match objects s !! l with
        | Some o =>
            (match forward with inl x => inl x | inr _ => inr true end,
             {| objects := <[l := add_subscriber o]> (objects s);
                domain_data := domain_data s;
                entry_data := <[entry_id entry := l]> (entry_data s);
                tasks := tasks s |})
        | None => (inl OtherException, s)
        end
    end.
Proof.
  destruct (domain_data s !! host_key entry) as [l|] eqn:Hk.
  - destruct (objects s !! l) as [o|] eqn:Hl; ha_unfold; cbn;
      rewrite Hk; cbn; rewrite Hk; cbn; rewrite Hl; ha_run; [|done].
    rewrite Hk. ha_run. by destruct forward.
  - ha_unfold. cbn. rewrite Hk. ha_run. by destruct forward.
Qed.

Lemma await_async_disconnect_state (O : Oracle) (l : nat) (s : Hass) (o : ModbusHost) :
  objects s !! l = Some o ->
  await_async_disconnect O l s
  = (fst (interp O async_disconnect (_client o)),
     {| objects :=
          <[l := with_client o
                   (_client o ++ snd (interp O async_disconnect (_client o)))]>
            (objects s);
        domain_data := domain_data s;
        entry_data := entry_data s;
        tasks := tasks s |}).
Proof.
  intros Hl. unfold await_async_disconnect, load, store, await, mbind, HA_bind.
  by rewrite Hl.
Qed.

(** A successful unload of the platforms on an endpoint that has a host, in
    full. *)
Lemma unload_state (O : Oracle) (s : Hass) (entry : ConfigEntry) (l : nat)
    (o : ModbusHost) :
  domain_data s !! host_key entry = Some l ->
  objects s !! l = Some o ->
  async_unload_entry O entry (inr true) s
  = let o1 := fst (remove_subscriber o) in
    if _subscriber_count o - 1 =? 0
    then
      let o2 :=
        with_client o1 (_client o ++ snd (interp O async_disconnect (_client o))) in
      match fst (interp O async_disconnect (_client o)) with
      | inl x =>
          (inl x,
           {| objects := <[l := o2]> (objects s); domain_data := domain_data s;
              entry_data := entry_data s; tasks := tasks s ++ [l] |})
      | inr _ =>
          match entry_data s !! entry_id entry with
          | Some _ =>
              (inr true,
               {| objects := <[l := o2]> (objects s);
                  domain_data := delete (host_key entry) (domain_data s);
                  entry_data := delete (entry_id entry) (entry_data s);
                  tasks := tasks s ++ [l] |})
          | None =>
              (inl KeyError,
               {| objects := <[l := o2]> (objects s);
                  domain_data := delete (host_key entry) (domain_data s);
                  entry_data := entry_data s;
                  tasks := tasks s ++ [l] |})
          end
      end
    else
      match entry_data s !! entry_id entry with
      | Some _ =>
          (inr true,
           {| objects := <[l := o1]> (objects s); domain_data := domain_data s;
              entry_data := delete (entry_id entry) (entry_data s);
              tasks := tasks s |})
      | None =>
          (inl KeyError,
           {| objects := <[l := o1]> (objects s); domain_data := domain_data s;
              entry_data := entry_data s; tasks := tasks s |})
      end.
Proof.
  intros Hk Hl. cbv zeta.
  remember (interp O async_disconnect (_client o)) as d eqn:Hd.
  ha_unfold. cbn -[await_async_disconnect]. rewrite Hk.
  cbn -[await_async_disconnect]. rewrite Hl. cbn -[await_async_disconnect].
  unfold get_subscriber_count. ha_run.
  destruct (_subscriber_count o - 1 =? 0) eqn:Hz; ha_run; rewrite ?Hz; ha_run.
  - erewrite await_async_disconnect_state; [|cbn; by rewrite lookup_insert_eq].
    cbn -[interp async_disconnect]. rewrite <- Hd.
    destruct d as [[x|[]] trd];
      cbn -[interp async_disconnect]; rewrite ?insert_insert_eq; [done|].
    rewrite Hk. cbn. by destruct (entry_data s !! entry_id entry).
  - by destruct (entry_data s !! entry_id entry).
Qed.

Lemma run_registry_ok (O : Oracle) (calls : list Call) (s : Hass) :
  close_ok O -> registry_ok s -> registry_ok (run O calls s).
Proof.
  intros Hclose. revert s. induction calls as [|c calls IH]; intros s Hok; [done|].
  unfold run in *. cbn [foldl]. apply IH. destruct c as [entry|entry|].
  - by apply (acquire_spec O s entry "").
  - by apply (release_spec O s entry "").
  - cbn [step]. apply (same_counts_registry_ok s); [|done].
    apply run_pending_tasks_same_counts.
Qed.

(** X5. On a transport whose [close()] does not raise, whatever entries are
    set up and unloaded, in whatever order, and whenever the event loop runs:
    every host in the registry is an object with at least one subscriber, and
    two endpoints never share a host object. *)
Theorem registry_invariant (O : Oracle) (calls : list Call) :
  close_ok O -> registry_ok (run O calls fresh_hass).
Proof. intros Hclose. apply run_registry_ok; [done|apply registry_ok_new]. Qed.

Lemma registry_invariant_witness :
  registry_ok
    (run (scripted []) [Release entry_1; Acquire entry_1; Loop; Release entry_2] fresh_hass).
Proof.
  apply (registry_invariant (scripted [])
           [Release entry_1; Acquire entry_1; Loop; Release entry_2]).
  intros h. by exists tt.
Defined.

(** X6. [async_unload_entry] on an endpoint that has no host raises
    [KeyError] and changes nothing; when the platforms refuse to unload, or
    unloading them raises, it changes nothing either and hands the outcome
    on. *)
Theorem unload_without_host (O : Oracle) (s : Hass) (entry : ConfigEntry) (x : exn) :
  domain_data s !! host_key entry = None ->
  async_unload_entry O entry (inr true) s = (inl KeyError, s)
  /\ async_unload_entry O entry (inr false) s = (inr false, s)
  /\ async_unload_entry O entry (inl x) s = (inl x, s).
Proof.
  intros Hk. split; [|by split].
  ha_unfold. cbn. by rewrite Hk.
Qed.

Lemma unload_without_host_witness :
  async_unload_entry (scripted []) entry_2 (inr true)
    (run (scripted []) [Acquire entry_1; Release entry_1] fresh_hass)
  = (inl KeyError, run (scripted []) [Acquire entry_1; Release entry_1] fresh_hass).
Proof.
  apply (unload_without_host (scripted [])
           (run (scripted []) [Acquire entry_1; Release entry_1] fresh_hass)
           entry_2 KeyError).
  vm_compute. reflexivity.
Defined.

(** X7. Entries of one endpoint share one host: after two entries with the
    same host and port are set up, [hass.data] holds for both entry ids the
    reference that the registry holds for the endpoint, and the object behind
    it counts both subscribers. *)
Theorem entries_share_host (O : Oracle) (s : Hass) (e1 e2 : ConfigEntry) :
  registry_ok s ->
  host_key e2 = host_key e1 ->
  let s2 := run O [Acquire e1; Acquire e2] s in
  exists l o,
    domain_data s2 !! host_key e1 = Some l
    /\ entry_data s2 !! entry_id e1 = Some l
    /\ entry_data s2 !! entry_id e2 = Some l
    /\ objects s2 !! l = Some o
    /\ _subscriber_count o = subscriber_count s (host_key e1) + 2.
Proof.
  intros [H1 H2] Hk12 s2. subst s2. unfold run. cbn [foldl step].
  assert (exists l o1 s1,
    snd (async_setup_entry e1 (inr tt) s) = s1
    /\ domain_data s1 !! host_key e1 = Some l
    /\ entry_data s1 !! entry_id e1 = Some l
    /\ objects s1 !! l = Some o1
    /\ _subscriber_count o1 = subscriber_count s (host_key e1) + 1)
    as (l & o1 & s1 & -> & Hd1 & He1 & Ho1 & Hc1).
  { rewrite setup_state. unfold subscriber_count.
    destruct (domain_data s !! host_key e1) as [l|] eqn:Hk.
    - destruct (H1 _ _ Hk) as (o & Hl & _). rewrite Hl.
      eexists l, _, _. split; [reflexivity|]. cbn.
      rewrite !lookup_insert_eq. by repeat split.
    - eexists _, _, _. split; [reflexivity|]. cbn.
      rewrite !lookup_insert_eq. by repeat split. }
  rewrite setup_state, Hk12, Hd1, Ho1. cbn.
  exists l, (add_subscriber o1). rewrite !lookup_insert_eq. repeat split; try done.
  - destruct (decide (entry_id e2 = entry_id e1)) as [->|Hne].
    + by rewrite lookup_insert_eq.
    + by rewrite lookup_insert_ne.
  - cbn. lia.
Qed.

Lemma entries_share_host_witness :
  exists l o,
    domain_data (run (scripted []) [Acquire entry_1; Acquire entry_2] fresh_hass)
      !! host_key entry_1 = Some l
    /\ entry_data (run (scripted []) [Acquire entry_1; Acquire entry_2] fresh_hass)
         !! "entry-1" = Some l
    /\ entry_data (run (scripted []) [Acquire entry_1; Acquire entry_2] fresh_hass)
         !! "entry-2" = Some l
    /\ objects (run (scripted []) [Acquire entry_1; Acquire entry_2] fresh_hass)
         !! l = Some o
    /\ _subscriber_count o = subscriber_count fresh_hass (host_key entry_1) + 2.
Proof.
  apply (entries_share_host (scripted []) fresh_hass entry_1 entry_2).
  - apply registry_ok_new.
  - reflexivity.
Defined.

(** X8. When forwarding the entry to the platforms raises,
    [async_setup_entry] lets the exception out, but the host is registered and
    the subscriber counted all the same: the state is the one of a successful
    setup. *)
Theorem setup_forward_failure (O : Oracle) (s : Hass) (entry : ConfigEntry) (x : exn) :
  registry_ok s ->
  async_setup_entry entry (inl x) s = (inl x, step O s (Acquire entry))
  /\ subscriber_count (step O s (Acquire entry)) (host_key entry)
     = subscriber_count s (host_key entry) + 1.
Proof.
  intros Hok. split.
  - cbn [step]. rewrite !setup_state. destruct Hok as [H1 _].
    destruct (domain_data s !! host_key entry) as [l|] eqn:Hk; [|done].
    by destruct (H1 _ _ Hk) as (o & -> & _).
  - destruct (acquire_spec O s entry (host_key entry) Hok) as [_ ->].
    by rewrite bool_decide_eq_true_2.
Qed.

Lemma setup_forward_failure_witness :
  async_setup_entry entry_1 (inl OtherException) fresh_hass
  = (inl OtherException, step (scripted []) fresh_hass (Acquire entry_1))
  /\ subscriber_count (step (scripted []) fresh_hass (Acquire entry_1)) (host_key entry_1)
     = subscriber_count fresh_hass (host_key entry_1) + 1.
Proof.
  apply (setup_forward_failure (scripted []) fresh_hass entry_1 OtherException).
  apply registry_ok_new.
Defined.

(** X9. When [close()] raises during the release that takes the count of an
    endpoint to zero, [async_unload_entry] lets the exception out before it
    deletes anything: the endpoint stays in the registry with a host of count
    0, and [hass.data[entry_id]] stays too. *)
Theorem unload_close_failure (O : Oracle) (s : Hass) (entry : ConfigEntry)
    (l : nat) (o : ModbusHost) (x : exn) :
  domain_data s !! host_key entry = Some l ->
  objects s !! l = Some o ->
  _subscriber_count o = 1 ->
  O (_client o) _ ClientConnected = true ->
  O (_client o ++ [Ob ClientConnected true]) _ ClientClose = inl x ->
  let s' := snd (async_unload_entry O entry (inr true) s) in
  fst (async_unload_entry O entry (inr true) s) = inl x
  /\ domain_data s' !! host_key entry = Some l
  /\ subscriber_count s' (host_key entry) = 0
  /\ entry_data s' = entry_data s
  /\ ~ registry_ok s'.
Proof.
  intros Hk Hl Hone Hup Hclose s'. subst s'.
  rewrite (unload_state O s entry l o Hk Hl). cbv zeta. rewrite Hone.
  change (1 - 1 =? 0) with true. cbv iota.
  assert (interp O async_disconnect (_client o)
          = (inl x, [Ob ClientConnected true; Ob ClientClose (inl x)])) as ->.
  { unfold async_disconnect, trigger, call. simpl. rewrite Hup. simpl.
    by rewrite Hclose. }
  cbn. unfold subscriber_count. cbn. rewrite Hk, lookup_insert_eq. cbn.
  rewrite Hone.
  repeat split; try done; try lia.
  intros [H1 _]. destruct (H1 _ _ Hk) as (o' & Ho' & Hpos). cbn in Ho'.
  rewrite lookup_insert_eq in Ho'. injection Ho' as <-. cbn in Hpos. lia.
Qed.

Lemma unload_close_failure_witness :
  fst (async_unload_entry closing_fails entry_1 (inr true)
         (run closing_fails [Acquire entry_1] fresh_hass))
  = inl ConnectionException
  /\ subscriber_count
       (snd (async_unload_entry closing_fails entry_1 (inr true)
               (run closing_fails [Acquire entry_1] fresh_hass)))
       (host_key entry_1) = 0
  /\ is_Some
       (domain_data
          (snd (async_unload_entry closing_fails entry_1 (inr true)
                  (run closing_fails [Acquire entry_1] fresh_hass)))
        !! host_key entry_1).
Proof.
  destruct (unload_close_failure closing_fails
              (run closing_fails [Acquire entry_1] fresh_hass) entry_1
              (fresh (dom (objects new_hass))) (add_subscriber example_host)
              ConnectionException) as (Hres & Hdom & Hcount & _ & _);
    [vm_compute; reflexivity..|].
  split; [exact Hres|]. split; [exact Hcount|]. by eexists.
Defined.



(** * Keys: [host_key] of [__init__.py] and [unique_id] of [config_flow.py] *)

Lemma string_app_cons (c : Ascii.ascii) (s1 s2 : string) :
  String c s1 +:+ s2 = String c (s1 +:+ s2).
Proof. reflexivity. Qed.

Lemma string_app_nil (s : string) : "" +:+ s = s.
Proof. reflexivity. Qed.

Lemma string_app_assoc (s1 s2 s3 : string) :
  (s1 +:+ s2) +:+ s3 = s1 +:+ s2 +:+ s3.
Proof.
  induction s1 as [|c s1 IH]; [done|]. by rewrite !string_app_cons, IH.
Qed.

Lemma has_char_app (c : Ascii.ascii) (s1 s2 : string) :
  has_char c (s1 +:+ s2) = has_char c s1 || has_char c s2.
Proof.
  induction s1 as [|c' s1 IH]; [done|]. rewrite string_app_cons. simpl.
  by destruct (decide (c = c')).
Qed.

Lemma pretty_N_char_no_colon (x : N) : pretty_N_char x <> colon.
Proof. unfold pretty_N_char. by repeat case_match. Qed.

Lemma pretty_N_go_no_colon (x : N) (s : string) :
  has_char colon s = false -> has_char colon (pretty_N_go x s) = false.
Proof.
  revert s. induction (N.lt_wf_0 x) as [x _ IH]; intros s Hs.
  assert (x = 0 \/ 0 < x)%N as [->|Hpos] by lia.
  - by rewrite pretty_N_go_0.
  - rewrite pretty_N_go_step by done. apply IH.
    + by apply N.div_lt.
    + simpl. destruct (decide (colon = pretty_N_char (x `mod` 10))) as [Heq|_].
      * by destruct (pretty_N_char_no_colon (x `mod` 10)%N).
      * done.
Qed.

Lemma pretty_N_no_colon (x : N) : has_char colon (pretty x) = false.
Proof.
  unfold pretty, pretty_N. case_decide; [done|]. by apply pretty_N_go_no_colon.
Qed.

(** The decimal form of an integer has no colon. *)
Lemma pretty_Z_no_colon (z : Z) : has_char colon (pretty z) = false.
Proof.
  destruct z as [|p|p]; unfold pretty, pretty_Z; [done| |].
  - apply pretty_N_no_colon.
  - rewrite has_char_app. simpl. apply pretty_N_no_colon.
Qed.

(** A string is cut at its last colon in one way only. *)
Lemma split_last_colon (s1 s2 p1 p2 : string) :
  has_char colon p1 = false -> has_char colon p2 = false ->
  s1 +:+ ":" +:+ p1 = s2 +:+ ":" +:+ p2 ->
  s1 = s2 /\ p1 = p2.
Proof.
  intros Hp1 Hp2. revert s2. induction s1 as [|c s1 IH]; intros [|c2 s2] Heq;
    rewrite ?string_app_cons, ?string_app_nil in Heq.
  - by injection Heq.
  - injection Heq as <- Heq. rewrite Heq, has_char_app in Hp1.
    simpl in Hp1. by rewrite orb_true_r in Hp1.
  - injection Heq as -> Heq. rewrite <- Heq, has_char_app in Hp2.
    simpl in Hp2. by rewrite orb_true_r in Hp2.
  - injection Heq as -> Heq. destruct (IH _ Heq) as [-> ->]. done.
Qed.

(** X11. The registry key tells endpoints apart: two entries have the same
    [host_key] only if they have the same host and the same port. *)
Theorem host_key_inj (e1 e2 : ConfigEntry) :
  host_key e1 = host_key e2 ->
  CONF_HOST e1 = CONF_HOST e2 /\ CONF_PORT e1 = CONF_PORT e2.
Proof.
  unfold host_key. intros Heq.
  apply split_last_colon in Heq as [Hh Hp]; [|apply pretty_Z_no_colon..].
  split; [done|]. by apply (inj pretty).
Qed.

Lemma host_key_inj_witness :
  CONF_HOST entry_1 = CONF_HOST entry_2 /\ CONF_PORT entry_1 = CONF_PORT entry_2.
Proof. apply (host_key_inj entry_1 entry_2). reflexivity. Defined.

Lemma unique_id_inj (h1 h2 : string) (p1 p2 u1 u2 : Z) :
  unique_id h1 p1 u1 = unique_id h2 p2 u2 -> h1 = h2 /\ p1 = p2 /\ u1 = u2.
Proof.
  unfold unique_id. intros Heq.
  rewrite <- !(string_app_assoc _ (pretty _) (":" +:+ _)) in Heq.
  rewrite <- !(string_app_assoc _ (":" +:+ pretty _) (":" +:+ _)) in Heq.
  apply split_last_colon in Heq as [Hhp Hu]; [|apply pretty_Z_no_colon..].
  apply split_last_colon in Hhp as [Hh Hp]; [|apply pretty_Z_no_colon..].
  split; [done|]. split; by apply (inj pretty).
Qed.

(** X12. The user step of the configuration flow shows the form when it has
    no input.  With input it aborts exactly when one of the existing entries
    has the same host, the same port and the same unit id; otherwise it
    creates an entry titled by the name that carries the input, and the
    registry key of that entry is the unique id without its unit id. *)
Theorem user_step_aborts_on_same_device (existing : list UserInput) (input : UserInput) :
  let uid := fun i => unique_id (ui_host i) (ui_port i) (ui_unit_id i) in
  let configured : gset string := list_to_set (map uid existing) in
  async_step_user configured None = ShowForm "user"
  /\ (async_step_user configured (Some input) = AbortFlow "already_configured"
      <-> exists i, In i existing /\ ui_host i = ui_host input
                    /\ ui_port i = ui_port input
                    /\ ui_unit_id i = ui_unit_id input)
  /\ (async_step_user configured (Some input) <> AbortFlow "already_configured" ->
      async_step_user configured (Some input) = CreateEntry (ui_name input) input)
  /\ (forall id, uid input = host_key (entry_of id input) +:+ ":" +:+ pretty (ui_unit_id input)).
Proof.
  cbv zeta. split; [done|]. unfold async_step_user. split; [|split].
  - case_decide as Hin; [|split; [done|]].
    + split; [|done]. intros _. apply elem_of_list_to_set, list_elem_of_fmap in Hin.
      destruct Hin as (i & Heq & Hi). exists i.
      split; [by apply list_elem_of_In|]. symmetry in Heq.
      by apply unique_id_inj in Heq.
    + intros (i & Hi & Hh & Hp & Hu). exfalso. apply Hin.
      apply elem_of_list_to_set, list_elem_of_fmap. exists i.
      split; [by rewrite Hh, Hp, Hu|by apply list_elem_of_In].
  - case_decide; [done|]. intros _. by destruct input.
  - intros id. unfold unique_id, host_key, entry_of. cbn.
    by rewrite !string_app_assoc.
Qed.

(** * Properties of the climate entity of [climate.py] *)

Lemma land_15 (x : Z) : Z.land x 0xF = x mod 16.
Proof. change 0xF with (Z.ones 4). by rewrite Z.land_ones. Qed.

Lemma decode_bcd_div_mod (value : Z) :
  Climate._decode_bcd value
  = value mod 16 + (value / 16) mod 16 * 10 + (value / 256) mod 16 * 100
    + (value / 4096) mod 16 * 1000.
Proof.
  unfold Climate._decode_bcd. rewrite !land_15, !Z.shiftr_div_pow2 by lia.
  reflexivity.
Qed.

(** X13. [_decode_bcd] reads the four low nibbles of its argument as decimal
    digits: on the word made of the nibbles [d3 d2 d1 d0] it gives
    [d3 d2 d1 d0] read in base ten.  Bits above the sixteenth are ignored,
    and the result of any argument lies between 0 and 16665. *)
Theorem decode_bcd_digits (d0 d1 d2 d3 value : Z) :
  0 <= d0 < 16 -> 0 <= d1 < 16 -> 0 <= d2 < 16 -> 0 <= d3 < 16 ->
  Climate._decode_bcd (d0 + 16 * d1 + 256 * d2 + 4096 * d3)
  = d0 + 10 * d1 + 100 * d2 + 1000 * d3
  /\ Climate._decode_bcd value = Climate._decode_bcd (value mod 65536)
  /\ 0 <= Climate._decode_bcd value <= 16665.
Proof.
  intros H0 H1 H2 H3. rewrite !decode_bcd_div_mod. repeat split.
  - Z.div_mod_to_equations. lia.
  - Z.div_mod_to_equations. lia.
  - Z.div_mod_to_equations. lia.
  - Z.div_mod_to_equations. lia.
Qed.

Lemma decode_bcd_digits_witness :
  Climate._decode_bcd (5 + 16 * 3 + 256 * 2 + 4096 * 1) = 5 + 10 * 3 + 100 * 2 + 1000 * 1
  /\ Climate._decode_bcd 74565 = Climate._decode_bcd (74565 mod 65536)
  /\ 0 <= Climate._decode_bcd 74565 <= 16665.
Proof. apply (decode_bcd_digits 5 3 2 1 74565); lia. Defined.

(** X14. Whatever value a register holds, the entity decodes it into a mode
    that it advertises: an HVAC mode of [hvac_modes], a fan mode of
    [fan_modes] and a preset of [preset_modes].  A value outside the tables
    reads as heating, as a fan that is off and as the away preset. *)
Theorem decoded_modes_are_advertised (value : Z) :
  In (Climate._value_to_hvac_mode value) Climate.hvac_modes
  /\ In (Climate._value_to_fan_mode value) Climate.fan_modes
  /\ In (Climate._value_to_preset_mode value) Climate.preset_modes
  /\ (value <> 0 -> Climate._value_to_hvac_mode value = Climate.HEAT)
  /\ (value <> 33 -> value <> 66 -> value <> 100 ->
      Climate._value_to_fan_mode value = "off")
  /\ (value <> 1 -> value <> 3 ->
      Climate._value_to_preset_mode value = Climate.PRESET_AWAY).
Proof.
  unfold Climate._value_to_hvac_mode, Climate._value_to_fan_mode,
    Climate._value_to_preset_mode, Climate.hvac_modes, Climate.fan_modes,
    Climate.preset_modes. cbn [dict_get].
  repeat split; intros; repeat case_decide; simpl; auto 6; lia.
Qed.

(** X15. A mode survives being written and read back exactly when the entity
    advertises it: the value that [async_set_hvac_mode] writes for a mode
    decodes to that mode if and only if the mode is in [hvac_modes], and the
    value that [async_set_fan_mode] writes for a fan mode decodes to it if
    and only if it is in [fan_modes].  Every other HVAC mode is written as
    cooling, and every other fan mode, ["auto"] among them, as off. *)
Theorem mode_round_trip (hvac_mode : Climate.HVACMode) (fan_mode : string) :
  (Climate._value_to_hvac_mode (Climate.hvac_mode_value hvac_mode) = hvac_mode
   <-> In hvac_mode Climate.hvac_modes)
  /\ (Climate._value_to_fan_mode (Climate.fan_mode_value fan_mode) = fan_mode
      <-> In fan_mode Climate.fan_modes)
  /\ (~ In hvac_mode Climate.hvac_modes ->
      Climate._value_to_hvac_mode (Climate.hvac_mode_value hvac_mode) = Climate.COOL)
  /\ (~ In fan_mode Climate.fan_modes ->
      Climate._value_to_fan_mode (Climate.fan_mode_value fan_mode) = "off").
Proof.
  unfold Climate._value_to_hvac_mode, Climate.hvac_mode_value,
    Climate._value_to_fan_mode, Climate.fan_mode_value, Climate.hvac_modes,
    Climate.fan_modes.
  split; [|split; [|split]].
  - destruct hvac_mode; cbn; split; intros Hin;
      repeat match goal with H : _ \/ _ |- _ => destruct H end;
      try done; auto.
  - cbn [dict_get]. repeat case_decide; subst; cbn; split; intros Hin;
      repeat match goal with H : _ \/ _ |- _ => destruct H end;
      try done; subst; auto 6.
  - destruct hvac_mode; cbn; intros Hin; try done; exfalso; apply Hin; auto.
  - cbn [dict_get]. repeat case_decide; subst; cbn; intros Hin; try done;
      exfalso; apply Hin; auto 6.
Qed.

Lemma write_register_paths (O : Oracle) (self : ModbusHost)
    (unit_id address value : Z) (h : list Obs) :
  let run := interp O (async_write_register self unit_id address value) h in
  let accepted := exists r, responded_in (snd run) r /\ isError r = false in
  (attempts (snd run) <= 1)%nat
  /\ (forall w, In w (writes (snd run)) -> w = (address, value, unit_id))
  /\ match fst run with
     | inl e => isinstance_Exception e = false /\ ~ accepted
     | inr (Some true) => accepted
     | inr _ => ~ accepted
     end.
Proof.
  cbv zeta. unfold async_write_register.
  rewrite interp_with_lock, interp_try_except, interp_bind.
  unfold async_connect, trigger, call, responded_in, attempts, writes.
  cbn [interp bind].
  destruct (O _ bool ClientConnected); cbn [negb interp bind].
  2: destruct (O _ _ ClientConnect) as [e|b]; cbn [interp bind app].
  all: try (destruct (O _ _ (WriteRegister address value unit_id)) as [e|[[|] rs bs]];
            cbn [interp bind app negb isError]).
  all: try destruct e; cbn [interp bind app isinstance_ModbusIOException
         isinstance_ModbusException isinstance_Exception fst snd].
  all: ask O.
  all: cbn [skeleton map omap list_omap written step_of responded fst snd app
              count_attempts In].
  all: repeat split; try lia; unfold not; intros; simpl in *;
    repeat match goal with
           | H : _ \/ _ |- _ => destruct H
           | H : exists _, _ |- _ => destruct H
           | H : _ /\ _ |- _ => destruct H
           end;
    simplify_eq/=; try done.
  all: eexists; (split; [solve [repeat (first [left; reflexivity | right])]|done]).
Qed.

Lemma write_register_writes (O : Oracle) (self : ModbusHost)
    (unit_id address value : Z) (h : list Obs) :
  connect_ok O ->
  writes (snd (interp O (async_write_register self unit_id address value) h))
  = [(address, value, unit_id)].
Proof.
  intros Hc. unfold async_write_register.
  rewrite interp_with_lock, interp_try_except, interp_bind.
  unfold async_connect, trigger, call, writes.
  cbn [interp bind].
  destruct (O _ bool ClientConnected); cbn [negb interp bind].
  2: destruct (O _ _ ClientConnect) as [e|b] eqn:He; cbn [interp bind app];
    [match type of He with
     | O ?hh _ _ = _ => destruct (Hc hh) as [b Hb]; congruence
     end|].
  all: destruct (O _ _ (WriteRegister address value unit_id)) as [e|[[|] rs bs]];
    cbn [interp bind app negb isError].
  all: try destruct e; cbn [interp bind app isinstance_ModbusIOException
         isinstance_ModbusException isinstance_Exception fst snd].
  all: ask O.
  all: reflexivity.
Qed.

Lemma setter_commits (O : Oracle) (self committed : Climate.SiemensRDF302)
    (address value : Z) (log : list Climate.LogCall) (msg : string) (h : list Obs) :
  Climate.errors log = 0%nat ->
  let run :=
    interp O
      (success <- async_write_register (Climate._modbus self) (Climate._unit_id self)
                    address value ;;
       if truthy success
       then Ret (committed, log)
       else Ret (self, log ++ [Climate.error msg])) h in
  Climate.setter_outcome self committed address value (Climate._unit_id self) run
  /\ (connect_ok O -> writes (snd run) = [(address, value, Climate._unit_id self)]).
Proof.
  intros Hlog. cbv zeta.
  assert (Herr : Climate.errors (log ++ [Climate.error msg]) = 1%nat).
  { clear -Hlog. induction log as [|[]]; simpl in *; auto; lia. }
  pose proof (write_register_paths O (Climate._modbus self) (Climate._unit_id self)
                address value h) as Hw.
  pose proof (write_register_writes O (Climate._modbus self) (Climate._unit_id self)
                address value h) as Hwr1.
  cbv zeta in Hw. unfold Climate.setter_outcome. rewrite interp_bind.
  destruct (interp O (async_write_register _ _ _ _) h) as [[e|[[|]|]] tr];
    cbn [fst snd truthy interp] in *; rewrite ?app_nil_r;
    destruct Hw as (Ha & Hwr & Hres); (split; [|done]);
    (split; [done|split; [done|]]); auto.
Qed.

(** X16. [async_set_hvac_mode] does nothing on the wire when the entity is
    already in the mode asked for.  Otherwise it makes one write of the value
    of the mode to the heat/cool register of its unit, and the entity takes
    the new mode exactly when that write was answered by a response without
    the error flag: a response with the error flag, for which the write
    returns [None], and an exception of the transport, for which it returns
    [False], both leave the entity as it was and log one error. *)
Theorem set_hvac_mode_commits_on_accept (O : Oracle) (REGISTER_HEAT_COOL_RW : Z)
    (self : Climate.SiemensRDF302) (hvac_mode : Climate.HVACMode) (h : list Obs) :
  let run := interp O (Climate.async_set_hvac_mode REGISTER_HEAT_COOL_RW self hvac_mode) h in
  if decide (Climate._hvac_mode self = hvac_mode)
  then snd run = [] /\ exists log, fst run = inr (self, log) /\ Climate.errors log = 0%nat
  else
    Climate.setter_outcome self (Climate.set_hvac_mode self hvac_mode)
      REGISTER_HEAT_COOL_RW (Climate.hvac_mode_value hvac_mode) (Climate._unit_id self) run
    /\ (connect_ok O ->
        writes (snd run)
        = [(REGISTER_HEAT_COOL_RW, Climate.hvac_mode_value hvac_mode,
            Climate._unit_id self)]).
Proof.
  cbv zeta. unfold Climate.async_set_hvac_mode.
  destruct (decide (Climate._hvac_mode self = hvac_mode)) as [Heq|Hne].
  - rewrite decide_False by (intros Hn; by apply Hn). cbn. eauto.
  - rewrite decide_True by done. by apply setter_commits.
Qed.

Lemma set_hvac_mode_commits_on_accept_witness :
  Climate.setter_outcome Climate.example_entity
    (Climate.set_hvac_mode Climate.example_entity Climate.HEAT) 100 1 7
    (interp (scripted [inr response_42])
       (Climate.async_set_hvac_mode 100 Climate.example_entity Climate.HEAT) [])
  /\ writes (snd (interp (scripted [inr response_42])
                    (Climate.async_set_hvac_mode 100 Climate.example_entity
                       Climate.HEAT) []))
     = [(100, 1, 7)].
Proof.
  pose proof (set_hvac_mode_commits_on_accept (scripted [inr response_42]) 100
                Climate.example_entity Climate.HEAT []) as [Hout Hw].
  split; [exact Hout|]. apply Hw. intros h. by exists true.
Defined.

(** X17. [async_set_fan_mode] writes on every call, also when the entity is
    already in the fan mode asked for: one write of the value of the mode to
    the fan register of its unit.  The entity takes the new fan mode exactly
    when that write was answered by a response without the error flag;
    otherwise it is left as it was and one error is logged. *)
Theorem set_fan_mode_commits_on_accept (O : Oracle) (REGISTER_FAN_SPEED_RW : Z)
    (self : Climate.SiemensRDF302) (fan_mode : string) (h : list Obs) :
  let run := interp O (Climate.async_set_fan_mode REGISTER_FAN_SPEED_RW self fan_mode) h in
  Climate.setter_outcome self (Climate.set_fan_mode self fan_mode)
    REGISTER_FAN_SPEED_RW (Climate.fan_mode_value fan_mode) (Climate._unit_id self) run
  /\ (connect_ok O ->
      writes (snd run)
      = [(REGISTER_FAN_SPEED_RW, Climate.fan_mode_value fan_mode, Climate._unit_id self)]).
Proof.
  cbv zeta. unfold Climate.async_set_fan_mode. by apply setter_commits.
Qed.

Lemma set_fan_mode_commits_on_accept_witness :
  Climate.setter_outcome Climate.example_entity
    (Climate.set_fan_mode Climate.example_entity "off") 101 0 7
    (interp (scripted [inr response_42])
       (Climate.async_set_fan_mode 101 Climate.example_entity "off") [])
  /\ writes (snd (interp (scripted [inr response_42])
                    (Climate.async_set_fan_mode 101 Climate.example_entity "off") []))
     = [(101, 0, 7)].
Proof.
  pose proof (set_fan_mode_commits_on_accept (scripted [inr response_42]) 101
                Climate.example_entity "off" []) as [Hout Hw].
  split; [exact Hout|]. apply Hw. intros h. by exists true.
Defined.

(** X18. The unique id of an entity is made of its name and its unit id and
    of nothing else: two entities have the same unique id exactly when they
    have the same name and the same unit id, whatever hosts they talk to.
    A new entity is in no mode that it advertises: its HVAC mode is [OFF]
    and its preset is ["none"]. *)
Theorem entity_unique_id_inj (n1 n2 : string) (m1 m2 : ModbusHost) (u1 u2 : Z) :
  (Climate._unique_id (fst (Climate.__init__ n1 m1 u1))
   = Climate._unique_id (fst (Climate.__init__ n2 m2 u2))
   <-> n1 = n2 /\ u1 = u2)
  /\ ~ In (Climate._hvac_mode (fst (Climate.__init__ n1 m1 u1))) Climate.hvac_modes
  /\ ~ In (Climate._attr_preset_mode (fst (Climate.__init__ n1 m1 u1)))
          Climate.preset_modes.
Proof.
  cbn. split; [split|split].
  - intros Heq. apply split_last_colon in Heq as [Hn Hu];
      [|apply pretty_Z_no_colon..].
    split; [done|]. by apply (inj pretty).
  - by intros [-> ->].
  - intros [|[|[]]]; done.
  - intros [|[|[|[]]]]; done.
Qed.
